(** * Avatar heightmap viewer: sector decoding, ordering and compositing

    A shallow embedding of the core of [Terrain_Data_To_Heightmap_Avatar.py]
    and [Terrain_Data_To_Heightmap_Avatar_Water_Test.py] (class
    [TerrainViewer]), followed by the properties of the specification.

    Conventions of the embedding.
    - A file is the list of its bytes; [open]/[read] of the source act on
      that list.  I/O failures of [open] are outside the model.
    - Python [int] is [Z]; sizes of sequences are [nat].
    - Height samples and blend weights are exact rationals ([Qc]).  A height
      is a 16 bit integer divided by 128, which binary floating point
      represents exactly, so nothing is lost for the decoder.  For the seam
      blender the rationals idealise NumPy's [float32] arithmetic; the
      statements about it are statements of exact arithmetic.
    - The water height is kept as the IEEE-754 value it is read as
      ([spec_float]), because the code compares it with [0.0].
    - A two dimensional NumPy array is the list of its rows.
    - [dict] objects keyed by sector number are [gmap Z _]. *)

From Stdlib Require Import ZArith QArith Qcanon Qround Lia String List.
From Stdlib Require Import Strings.Byte.
From Stdlib Require Import Floats.SpecFloat.
From stdpp Require Import gmap strings list sorting.

Local Open Scope Z_scope.

(** ** Python and NumPy primitives used by the viewer *)

#[global] Instance byte_inhabited : Inhabited byte := populate x00.

Definition byte_to_Z (b : byte) : Z := Z.of_N (Byte.to_N b).

(** [int.from_bytes(data, 'little')]. *)
Definition int_from_bytes_little (data : list byte) : Z :=
  foldr (λ b acc, byte_to_Z b + 256 * acc) 0 data.

(** [f.seek(pos); f.read(n)] on a file with the given contents. *)
Definition file_read_at (pos n : nat) (contents : list byte) : list byte :=
  take n (drop pos contents).

(** [io.BytesIO.read(n)]: the bytes read and the rest of the stream. *)
Definition bytesio_read (n : nat) (stream : list byte) : list byte * list byte :=
  (take n stream, drop n stream).

(** Python's true division of an [int] by 128. *)
Definition int_div_128 (raw : Z) : Qc := (Qc_of_Z raw / Qc_of_Z 128)%Qc.

Abbreviation array2 A := (list (list A)).

(** [np.array(rows)] on a list of lists of floats: NumPy (1.24 and later)
    raises [ValueError] on rows of different lengths, which is [None] here. *)
Definition np_array {A} (rows : list (list A)) : option (array2 A) :=
  match rows with
  | [] => Some rows
  | r :: _ =>
      if forallb (λ r', Nat.eqb (length r') (length r)) rows
      then Some rows else None
  end.

(** ** Sector decoder: [load_single_sector] *)

Definition grid_size : nat := 65.

(** The inner loop [for x in range(self.grid_size)] with its [break]. *)
Fixpoint read_row (n : nat) (terrain_data : list byte) (row : list Qc)
  : list Qc * list byte :=
  match n with
  | O => (row, terrain_data)
  | S n' =>
      let '(data, terrain_data) := bytesio_read 2 terrain_data in
      if (length data <? 2)%nat then (row, terrain_data)
      else
        let height := int_div_128 (int_from_bytes_little data) in
        let '(_, terrain_data) := bytesio_read 2 terrain_data in
        read_row n' terrain_data (row ++ [height])
  end.

(** The outer loop [for y in range(self.grid_size)]; [height_map] is the
    list of the rows stored under the keys [0], [1], ... in that order. *)
Fixpoint read_rows (n : nat) (terrain_data : list byte)
    (height_map : list (list Qc)) : list (list Qc) :=
  match n with
  | O => height_map
  | S n' =>
      let '(row, terrain_data) := read_row grid_size terrain_data [] in
      read_rows n' terrain_data (height_map ++ [row])
  end.

(** [load_single_sector]: [None] is the [return None] of the handler. *)
Definition load_single_sector (contents : list byte) : option (array2 Qc) :=
  let terrain_data := file_read_at 708 (Z.to_nat 16900) contents in
  np_array (read_rows grid_size terrain_data []).

(** The decoder in the words of the specification: the cell in row [y] and
    column [x] is the little-endian 16 bit integer at byte
    [708 + 4 * (65 * y + x)], divided by 128. *)
Definition spec_cell (contents : list byte) (y x : nat) : Qc :=
  let off := (708 + 4 * (65 * y + x))%nat in
  int_div_128 (byte_to_Z (contents !!! off) + 256 * byte_to_Z (contents !!! S off)).

Definition spec_grid (contents : list byte) : array2 Qc :=
  (λ y, (λ x, spec_cell contents y x) <$> seq 0 65) <$> seq 0 65.

(** Auxiliary notions for the decoder proofs: the height of the [i]-th
    four byte cell of a stream, the number of cells whose two height bytes
    are present, and the row decoded from the head of a stream. *)
Definition stream_cell (s : list byte) (i : nat) : Qc :=
  int_div_128 (byte_to_Z (s !!! (4 * i)%nat)
               + 256 * byte_to_Z (s !!! S (4 * i)%nat)).

Definition avail (s : list byte) : nat := ((length s + 2) / 4)%nat.

Definition stream_row (s : list byte) : list Qc :=
  stream_cell s <$> seq 0 (grid_size `min` avail s).

(** ** Water record parser: [parse_water_from_sector] *)

(** [struct.unpack('<f', b)[0]]: the IEEE-754 binary32 value of four
    little-endian bytes; [None] is [struct.error] on any other length.
    Python widens the value to a binary64 [float] without changing it. *)
Definition struct_unpack_f (b : list byte) : option spec_float :=
  if negb (length b =? 4)%nat then None
  else
    let bits := int_from_bytes_little b in
    let sign := Z.testbit bits 31 in
    let e := Z.land (Z.shiftr bits 23) 255 in
    let m := Z.land bits (2 ^ 23 - 1) in
    Some (if e =? 0 then
            if m =? 0 then S754_zero sign
            else S754_finite sign (Z.to_pos m) (-149)
          else if e =? 255 then
            if m =? 0 then S754_infinity sign else S754_nan
          else S754_finite sign (Z.to_pos (m + 2 ^ 23)) (e - 150)).

(** The Python literal [0.0] and the comparison [x != y] on floats. *)
Definition float_zero : spec_float := S754_zero false.
Definition float_ne (x y : spec_float) : bool := negb (SFeqb x y).

Fixpoint is_prefix (sub data : list byte) : bool :=
  match sub, data with
  | [], _ => true
  | _ :: _, [] => false
  | a :: sub', b :: data' => Byte.eqb a b && is_prefix sub' data'
  end.

(** [find_from sub data pos]: [data] is the part of the buffer that starts
    at index [pos]; the result is the lowest index of an occurrence of
    [sub], or [-1]. *)
Fixpoint find_from (sub data : list byte) (pos : nat) : Z :=
  if is_prefix sub data then Z.of_nat pos
  else match data with
       | [] => -1
       | _ :: data' => find_from sub data' (S pos)
       end.

(** [data.find(sub, start)] for a start inside the buffer. *)
Definition bytes_find (sub data : list byte) (start : nat) : Z :=
  find_from sub (drop start data) start.

(** [b.decode('latin-1', errors='ignore')]: every byte is a code point. *)
Definition decode_latin1 (b : list byte) : string := string_of_list_byte b.

(** [class WaterData] ([file_path] and [file_name] are left out). *)
Record WaterData := mkWaterData {
  sector_num : Z;
  material_path : option string;
  has_water : bool;
  water_height : spec_float;
  hex_offset_material : option Z;
  hex_offset_height : option Z
}.

Definition WaterData_init (sector_num : Z) : WaterData :=
  {| sector_num := sector_num; material_path := None; has_water := false;
     water_height := float_zero; hex_offset_material := None;
     hex_offset_height := None |}.

Definition water_patterns : list (list byte) :=
  [ list_byte_of_string "graphics\_materials\editor\water_";
    list_byte_of_string "graphics_materials\editor\water_" ].

(** The loop over [water_patterns] with its [break]. *)
Fixpoint find_first_pattern (patterns : list (list byte)) (data : list byte)
  : Z :=
  match patterns with
  | [] => -1
  | pattern :: rest =>
      let pos := bytes_find pattern data 0 in
      if negb (pos =? -1) then pos else find_first_pattern rest data
  end.

Definition height_offset : nat := 176.

Definition parse_water_from_sector (data : list byte) (sector_num : Z)
  : WaterData :=
  let water := WaterData_init sector_num in
  if (length data <? height_offset + 4)%nat then water
  else
    let height_bytes := take 4 (drop height_offset data) in
    match struct_unpack_f height_bytes with
    | None =>
        (* [except Exception]: water.water_height = 0.0 *)
        {| sector_num := sector_num; material_path := None;
           has_water := false; water_height := float_zero;
           hex_offset_material := None; hex_offset_height := None |}
    | Some h =>
        if float_ne h float_zero then
          let graphics_pos := find_first_pattern water_patterns data in
          if negb (graphics_pos =? -1) then
            let material_start := Z.to_nat graphics_pos in
            let material_end := bytes_find [x00] data material_start in
            let path :=
              if negb (material_end =? -1) then
                take (Z.to_nat material_end - material_start)
                     (drop material_start data)
              else take 100 (drop material_start data) in
            {| sector_num := sector_num;
               material_path := Some (decode_latin1 path);
               has_water := true; water_height := h;
               hex_offset_material := Some graphics_pos;
               hex_offset_height := Some (Z.of_nat height_offset) |}
          else
            {| sector_num := sector_num; material_path := None;
               has_water := true; water_height := h;
               hex_offset_material := None;
               hex_offset_height := Some (Z.of_nat height_offset) |}
        else
          {| sector_num := sector_num; material_path := None;
             has_water := false; water_height := h;
             hex_offset_material := None;
             hex_offset_height := Some (Z.of_nat height_offset) |}
    end.

(** The water height in the words of the specification: the four bytes at
    offset 0xB0 read as one little-endian 32 bit pattern. *)
Definition spec_water_bits (data : list byte) : Z :=
  byte_to_Z (data !!! 176%nat) + 256 * byte_to_Z (data !!! 177%nat)
  + 65536 * byte_to_Z (data !!! 178%nat)
  + 16777216 * byte_to_Z (data !!! 179%nat).

(** ** Ordering policy resolver: [get_sector_index_from_position]

    [pattern] is the value of [self.sector_order_pattern]; [//] and [%]
    are the floor division and modulo of [Z]. *)

Definition avatar_vertical : string := "Avatar Game Layout (2x2 blocks, vertical)".
Definition avatar_horizontal : string := "Avatar Game Layout - Horizontal".
Definition avatar_no_swap : string := "Avatar Game Layout - No Swap".
Definition avatar_swap_0_3 : string := "Avatar Game Layout - Swap 0↔3".

Definition get_sector_index_from_position (pattern : string)
    (display_row col sectors_x sectors_y : Z) : Z :=
  if String.eqb pattern avatar_vertical then
    let block_col := col / 2 in
    let block_row := display_row / 2 in
    let within_block_col := col mod 2 in
    let within_block_row := display_row mod 2 in
    let blocks_per_column := sectors_y / 2 in
    let atlas_block_index := block_col * blocks_per_column + block_row in
    let base_sector := atlas_block_index * 4 in
    let offset :=
      if (within_block_row =? 0) && (within_block_col =? 0) then 0
      else if (within_block_row =? 0) && (within_block_col =? 1) then 2
      else if (within_block_row =? 1) && (within_block_col =? 0) then 1
      else 3 in
    base_sector + offset
  else if String.eqb pattern avatar_horizontal then
    let block_col := col / 2 in
    let block_row := display_row / 2 in
    let within_block_col := col mod 2 in
    let within_block_row := display_row mod 2 in
    let blocks_per_row := sectors_x / 2 in
    let atlas_block_index := block_row * blocks_per_row + block_col in
    let base_sector := atlas_block_index * 4 in
    let offset :=
      if (within_block_row =? 0) && (within_block_col =? 0) then 0
      else if (within_block_row =? 0) && (within_block_col =? 1) then 2
      else if (within_block_row =? 1) && (within_block_col =? 0) then 1
      else 3 in
    base_sector + offset
  else if String.eqb pattern avatar_no_swap then
    let block_col := col / 2 in
    let block_row := display_row / 2 in
    let within_block_col := col mod 2 in
    let within_block_row := display_row mod 2 in
    let blocks_per_column := sectors_y / 2 in
    let atlas_block_index := block_col * blocks_per_column + block_row in
    let base_sector := atlas_block_index * 4 in
    let offset :=
      if (within_block_row =? 0) && (within_block_col =? 0) then 0
      else if (within_block_row =? 0) && (within_block_col =? 1) then 1
      else if (within_block_row =? 1) && (within_block_col =? 0) then 2
      else 3 in
    base_sector + offset
  else if String.eqb pattern avatar_swap_0_3 then
    let block_col := col / 2 in
    let block_row := display_row / 2 in
    let within_block_col := col mod 2 in
    let within_block_row := display_row mod 2 in
    let blocks_per_column := sectors_y / 2 in
    let atlas_block_index := block_col * blocks_per_column + block_row in
    let base_sector := atlas_block_index * 4 in
    let offset :=
      if (within_block_row =? 0) && (within_block_col =? 0) then 3
      else if (within_block_row =? 0) && (within_block_col =? 1) then 1
      else if (within_block_row =? 1) && (within_block_col =? 0) then 2
      else 0 in
    base_sector + offset
  else if String.eqb pattern "Bottom-Left Sequential" then
    let sector_row := sectors_y - 1 - display_row in
    sector_row * sectors_x + col
  else if String.eqb pattern "Top-Left Sequential" then
    display_row * sectors_x + col
  else if String.eqb pattern "Bottom-Right Sequential" then
    let sector_row := sectors_y - 1 - display_row in
    let sector_col := sectors_x - 1 - col in
    sector_row * sectors_x + sector_col
  else if String.eqb pattern "Top-Right Sequential" then
    let sector_col := sectors_x - 1 - col in
    display_row * sectors_x + sector_col
  else if String.eqb pattern "Bottom-Left by Column" then
    let sector_row := sectors_y - 1 - display_row in
    col * sectors_y + sector_row
  else if String.eqb pattern "Top-Left by Column" then
    col * sectors_y + display_row
  else
    let sector_row := sectors_y - 1 - display_row in
    sector_row * sectors_x + col.

(** The policies offered by the viewer (the values of the combo box). *)
Definition block_patterns : list string :=
  [avatar_vertical; avatar_horizontal; avatar_no_swap; avatar_swap_0_3].

Definition linear_patterns : list string :=
  [ "Bottom-Left Sequential"; "Top-Left Sequential";
    "Bottom-Right Sequential"; "Top-Right Sequential";
    "Bottom-Left by Column"; "Top-Left by Column" ].

Definition named_patterns : list string := block_patterns ++ linear_patterns.

(** A resolver [f] is a bijection from the cells of a [sectors_x] by
    [sectors_y] grid onto the indices below [sectors_x * sectors_y]. *)
Definition grid_bijection (f : Z → Z → Z) (sectors_x sectors_y : Z) : Prop :=
  (∀ r c, 0 ≤ r < sectors_y → 0 ≤ c < sectors_x →
     0 ≤ f r c < sectors_x * sectors_y)
  ∧ (∀ r c r' c', 0 ≤ r < sectors_y → 0 ≤ c < sectors_x →
       0 ≤ r' < sectors_y → 0 ≤ c' < sectors_x →
       f r c = f r' c' → r = r' ∧ c = c')
  ∧ (∀ i, 0 ≤ i < sectors_x * sectors_y →
       ∃ r c, 0 ≤ r < sectors_y ∧ 0 ≤ c < sectors_x ∧ f r c = i).

(** A map of [0, n) to itself that is its own inverse. *)
Definition involution_on (n : Z) (ρ : Z → Z) : Prop :=
  ∀ i, 0 ≤ i < n → 0 ≤ ρ i < n ∧ ρ (ρ i) = i.

(** The slots of a 2 x 2 block: a numbering of the four positions. *)
Definition slot_bijection (off : Z → Z → Z) : Prop :=
  grid_bijection (λ wr wc, off wr wc) 2 2.

(** The three numberings of the slots of a block used by the game layouts,
    as functions of the row and column inside the block. *)
Definition offset_swap_1_2 (wr wc : Z) : Z :=
  if (wr =? 0) && (wc =? 0) then 0
  else if (wr =? 0) && (wc =? 1) then 2
  else if (wr =? 1) && (wc =? 0) then 1 else 3.

Definition offset_no_swap (wr wc : Z) : Z :=
  if (wr =? 0) && (wc =? 0) then 0
  else if (wr =? 0) && (wc =? 1) then 1
  else if (wr =? 1) && (wc =? 0) then 2 else 3.

Definition offset_swap_0_3 (wr wc : Z) : Z :=
  if (wr =? 0) && (wc =? 0) then 3
  else if (wr =? 0) && (wc =? 1) then 1
  else if (wr =? 1) && (wc =? 0) then 2 else 0.

(** ** Exceptions and NumPy arrays

    A computation that may raise returns a [result].  Of NumPy's
    broadcasting only the case of equal shapes is modelled: an operation on
    two arrays of different shapes raises [ValueError], as it does for every
    shape the decoder can produce (65 x 65 and 65 x 0). *)

Inductive exn := ValueError | IndexError | AttributeError.

Inductive result (A : Type) : Type :=
  | Returns (a : A)
  | Raises (e : exn).
Arguments Returns {A} a.
Arguments Raises {A} e.

#[global] Instance result_ret : MRet result := λ A, Returns.
#[global] Instance result_bind : MBind result := λ A B f m,
  match m with
  | Returns a => f a
  | Raises e => Raises e
  end.

(** A [for] loop whose body may raise. *)
Fixpoint for_each {A S} (l : list A) (body : A → S → result S) (s : S)
  : result S :=
  match l with
  | [] => Returns s
  | a :: l' => s' ← body a s; for_each l' body s'
  end.

(** The cells visited by [for display_row in range(sectors_y): for col in
    range(sectors_x)], in order. *)
Definition grid_cells (sectors_x sectors_y : Z) : list (Z * Z) :=
  display_row ← seqZ 0 sectors_y; col ← seqZ 0 sectors_x; [(display_row, col)].

(** [np.zeros((h, w))]. *)
Definition np_zeros {A} (zero : A) (h w : Z) : result (array2 A) :=
  if (h <? 0) || (w <? 0) then Raises ValueError
  else Returns (replicate (Z.to_nat h) (replicate (Z.to_nat w) zero)).

Definition np_ones (h w : nat) : array2 Qc := replicate h (replicate w 1%Qc).

Definition np_flipud {A} (a : array2 A) : array2 A := reverse a.

(** An integer index into an axis of size [n]: negative indices count from
    the end, anything else out of range raises [IndexError]. *)
Definition np_index (i : Z) (n : nat) : result nat :=
  if (0 <=? i) && (i <? Z.of_nat n) then Returns (Z.to_nat i)
  else if (i <? 0) && (- Z.of_nat n <=? i) then Returns (Z.to_nat (i + Z.of_nat n))
  else Raises IndexError.

(** [a[:, j] *= w] and [a[i, :] *= w]. *)
Definition scale_column (j : nat) (w : Qc) (a : array2 Qc) : array2 Qc :=
  alter (λ x, x * w)%Qc j <$> a.

Definition scale_row (i : nat) (w : Qc) (a : array2 Qc) : array2 Qc :=
  alter (fmap (λ x, x * w)%Qc) i a.

(** The start or stop of a slice, clamped to an axis of size [len]. *)
Definition slice_index (i : Z) (len : nat) : nat :=
  if i <? 0 then Z.to_nat (Z.max 0 (i + Z.of_nat len))
  else Z.to_nat (Z.min i (Z.of_nat len)).

(** [l[i:j]]. *)
Definition py_slice {A} (i j : Z) (l : list A) : list A :=
  let a := slice_index i (length l) in
  let b := slice_index j (length l) in
  take (b - a) (drop a l).

(** [a[y0:y1, x0:x1]]. *)
Definition slice2 {A} (y0 y1 x0 x1 : Z) (a : array2 A) : array2 A :=
  py_slice x0 x1 <$> py_slice y0 y1 a.

(** The list [l] with [l[i:j]] replaced by [new]. *)
Definition set_slice {A} (i j : Z) (new l : list A) : list A :=
  let a := slice_index i (length l) in
  let b := slice_index j (length l) in
  take a l ++ new ++ drop (a + (b - a)) l.

Definition set_slice2 {A} (y0 y1 x0 x1 : Z) (new a : array2 A) : array2 A :=
  let ya := slice_index y0 (length a) in
  let yb := slice_index y1 (length a) in
  take ya a
  ++ zip_with (λ new_row row, set_slice x0 x1 new_row row)
       new (take (yb - ya) (drop ya a))
  ++ drop (ya + (yb - ya)) a.

Definition same_shape {A B} (a : array2 A) (b : array2 B) : bool :=
  bool_decide (length <$> a = length <$> b).

(** [a * b] elementwise. *)
Definition np_mul2 {A B C} (f : A → B → C) (a : array2 A) (b : array2 B)
  : result (array2 C) :=
  if same_shape a b then Returns (zip_with (zip_with f) a b)
  else Raises ValueError.

(** [a[y0:y1, x0:x1] op= rhs], where [f old new] is the stored value:
    addition for [+=], the new value for [=]. *)
Definition slice2_update {A B} (f : A → B → A) (y0 y1 x0 x1 : Z)
    (rhs : array2 B) (a : array2 A) : result (array2 A) :=
  let lhs := slice2 y0 y1 x0 x1 a in
  if same_shape lhs rhs
  then Returns (set_slice2 y0 y1 x0 x1 (zip_with (zip_with f) lhs rhs) a)
  else Raises ValueError.

(** [np.maximum(x, y)] on one element. *)
Definition qc_max (x y : Qc) : Qc := if decide (x ≤ y)%Qc then y else x.

(** The matrix transpose; a zero-row array has no width in this model. *)
Definition np_transpose {A} (a : array2 A) : array2 A :=
  foldr (zip_with cons) (replicate (length (default [] (head a))) []) a.

(** [np.rot90(m, k)] for [k] in 1, 2, 3: counterclockwise quarter turns. *)
Definition np_rot90 {A} (m : array2 A) (k : Z) : array2 A :=
  if k =? 1 then np_transpose (reverse <$> m)
  else if k =? 2 then reverse <$> reverse m
  else if k =? 3 then reverse <$> np_transpose m
  else m.

(** ** Seam blending: [apply_seam_blending] *)

(** The arithmetic of one pixel: [Acc] is the [float32] accumulator, [Out]
    the element type of the returned array.  The two instances are the two
    branches of every [if is_texture:] of the source. *)
Record pixel_ops (P Acc Out : Type) := {
  px_zero : Acc;
  px_weighted : P → Qc → Acc;
  px_add : Acc → Acc → Acc;
  px_finish : Acc → Qc → Out
}.
Arguments px_zero {P Acc Out}.
Arguments px_weighted {P Acc Out}.
Arguments px_add {P Acc Out}.
Arguments px_finish {P Acc Out}.

(** Heights: one channel, [combined /= weights]. *)
Definition height_ops : pixel_ops Qc Qc Qc :=
  {| px_zero := 0%Qc;
     px_weighted := λ v w, (v * w)%Qc;
     px_add := Qcplus;
     px_finish := λ acc w, (acc / w)%Qc |}.

(** Textures: three [uint8] channels; the result is clipped to 0..255 and
    truncated by [astype(np.uint8)]. *)
Definition rgb : Type := Z * Z * Z.

Definition clip_uint8 (x : Qc) : Z :=
  Qfloor (qc_max (Qc_of_Z 0) (if decide (x ≤ Qc_of_Z 255)%Qc then x else Qc_of_Z 255)).

Definition texture_ops : pixel_ops rgb (Qc * Qc * Qc) rgb :=
  {| px_zero := (0, 0, 0)%Qc;
     px_weighted := λ '(r, g, b) w,
       (Qc_of_Z r * w, Qc_of_Z g * w, Qc_of_Z b * w)%Qc;
     px_add := λ '(r1, g1, b1) '(r2, g2, b2), (r1 + r2, g1 + g2, b1 + b2)%Qc;
     px_finish := λ '(r, g, b) w,
       (clip_uint8 (r / w), clip_uint8 (g / w), clip_uint8 (b / w)) |}.

(** The ramp value of [edge_pixel] under the selected blend mode. *)
Definition blend_weight (blend_mode : string) (edge_pixel overlap : Z) : Qc :=
  let t := (Qc_of_Z edge_pixel / Qc_of_Z overlap)%Qc in
  if String.eqb blend_mode "Linear" then t
  else if String.eqb blend_mode "Smooth Feather" then
    (t * t * (Qc_of_Z 3 - Qc_of_Z 2 * t))%Qc
  else if String.eqb blend_mode "Gaussian" then
    (t * t * t * (t * (t * Qc_of_Z 6 - Qc_of_Z 15) + Qc_of_Z 10))%Qc
  else t.

(** The body of [for edge_pixel in range(overlap)]. *)
Definition feather_step (blend_mode : string) (overlap edge_pixel : Z)
    (sector_weight : array2 Qc) : result (array2 Qc) :=
  let weight := blend_weight blend_mode edge_pixel overlap in
  j ← np_index edge_pixel grid_size;
  let sector_weight := scale_column j weight sector_weight in
  j ← np_index (- (edge_pixel + 1)) grid_size;
  let sector_weight := scale_column j weight sector_weight in
  i ← np_index edge_pixel grid_size;
  let sector_weight := scale_row i weight sector_weight in
  i ← np_index (- (edge_pixel + 1)) grid_size;
  let sector_weight := scale_row i weight sector_weight in
  mret sector_weight.

(** The feathered weight mask of one sector. *)
Definition sector_weight_mask (blend_mode : string) (overlap : Z)
  : result (array2 Qc) :=
  for_each (seqZ 0 overlap) (feather_step blend_mode overlap)
           (np_ones grid_size grid_size).

(** The value the source writes as [1e-10]. *)
Definition weight_epsilon : Qc := (1 / Qc_of_Z (10 ^ 10))%Qc.

Section seam_blending.
Context {P Acc Out : Type} (ops : pixel_ops P Acc Out).
Context (is_texture : bool).
(** [self.seam_overlap_pixels], [self.seam_blend_mode] and
    [self.sector_order_pattern]. *)
Context (overlap : Z) (blend_mode current_pattern : string).

(** The body of the loop over the cells: place one sector. *)
Definition seam_place (sectors_dict : gmap Z (array2 P))
    (sectors_x sectors_y total_width total_height effective_sector_size : Z)
    (cell : Z * Z) (state : array2 Acc * array2 Qc)
  : result (array2 Acc * array2 Qc) :=
  let '(display_row, col) := cell in
  let '(combined, weights) := state in
  let sector_index :=
    get_sector_index_from_position current_pattern display_row col
      sectors_x sectors_y in
  match sectors_dict !! sector_index with
  | None => Returns state
  | Some sector_data =>
      let sector_data :=
        if is_texture && negb (String.eqb current_pattern avatar_vertical)
        then np_flipud sector_data else sector_data in
      let out_y := display_row * effective_sector_size in
      let out_x := col * effective_sector_size in
      sector_weight ← sector_weight_mask blend_mode overlap;
      let end_y := Z.min (out_y + Z.of_nat grid_size) total_height in
      let end_x := Z.min (out_x + Z.of_nat grid_size) total_width in
      let sector_h := end_y - out_y in
      let sector_w := end_x - out_x in
      let mask := slice2 0 sector_h 0 sector_w sector_weight in
      weighted ← np_mul2 (px_weighted ops)
                   (slice2 0 sector_h 0 sector_w sector_data) mask;
      combined ← slice2_update (px_add ops) out_y end_y out_x end_x
                   weighted combined;
      weights ← slice2_update Qcplus out_y end_y out_x end_x mask weights;
      mret (combined, weights)
  end.

(** The accumulation phase: the sums of weighted values and of weights. *)
Definition seam_accumulate (sectors_dict : gmap Z (array2 P))
    (sectors_x sectors_y : Z) : result (array2 Acc * array2 Qc) :=
  let effective_sector_size := Z.of_nat grid_size - overlap in
  let total_width := sectors_x * effective_sector_size + overlap in
  let total_height := sectors_y * effective_sector_size + overlap in
  combined ← np_zeros (px_zero ops) total_height total_width;
  weights ← np_zeros 0%Qc total_height total_width;
  for_each (grid_cells sectors_x sectors_y)
    (seam_place sectors_dict sectors_x sectors_y total_width total_height
       effective_sector_size)
    (combined, weights).

(** [apply_seam_blending]; [Returns None] is the [return None] taken when
    the overlap is below one. *)
Definition apply_seam_blending (sectors_dict : gmap Z (array2 P))
    (sectors_x sectors_y : Z) : result (option (array2 Out)) :=
  if overlap <? 1 then Returns None
  else
    match seam_accumulate sectors_dict sectors_x sectors_y with
    | Raises e => Raises e
    | Returns (combined, weights) =>
        let weights :=
          (λ row : list Qc, (λ w, qc_max w weight_epsilon) <$> row)
            <$> weights in
        Returns (Some (zip_with (zip_with (px_finish ops)) combined weights))
    end.
End seam_blending.

(** ** Mosaic compositor: [update_display]

    The part of [update_display] that builds the height and texture buffers
    and the status line; the plotting that follows reads these values and
    changes none of them. *)

(** The Tk variables read by the compositor. *)
Record Settings := mkSettings {
  sectors_x : Z;
  sectors_y : Z;
  enable_textures : bool;
  enable_seam_blending : bool;
  seam_overlap_pixels : Z;
  seam_blend_mode : string;
  sector_order_pattern : string;
  apply_pattern_to_heightmap : bool;
  texture_layer : string;
  map_rotation : Z
}.

(** The viewer state read by the compositor. *)
Record Viewer := mkViewer {
  settings : Settings;
  sectors_data : gmap Z (array2 Qc);
  sectors_textures : gmap Z (array2 rgb)
}.

(** The text written to [self.display_info]: "Showing d/t sectors |
    Missing: m" in orange, or "Showing d/t sectors" in green. *)
Inductive display_info :=
  | InfoMissing (displayed_count : nat) (total_slots : Z) (missing_count : nat)
  | InfoComplete (displayed_count : nat) (total_slots : Z).

(** What one composite request produces. *)
Record Display := mkDisplay {
  current_combined_map : array2 Qc;
  combined_texture : option (array2 rgb);
  displayed_sectors : list Z;
  missing_sectors : list Z;
  info : display_info
}.

(** The state of the loop of the standard path. *)
Record Assembly := mkAssembly {
  asm_map : array2 Qc;
  asm_texture : option (array2 rgb);
  asm_displayed : list Z;
  asm_missing : list Z
}.

(** The body of the loop of the standard grid assembly. *)
Definition place_cell (v : Viewer) (cell : Z * Z) (a : Assembly)
  : result Assembly :=
  let '(display_row, col) := cell in
  let s := settings v in
  let heightmap_sector_index :=
    if apply_pattern_to_heightmap s then
      get_sector_index_from_position (sector_order_pattern s)
        display_row col (sectors_x s) (sectors_y s)
    else
      let sector_row := sectors_y s - 1 - display_row in
      sector_row * sectors_x s + col in
  let texture_sector_index :=
    get_sector_index_from_position (sector_order_pattern s)
      display_row col (sectors_x s) (sectors_y s) in
  match sectors_data v !! heightmap_sector_index with
  | Some data =>
      let start_y := display_row * Z.of_nat grid_size in
      let end_y := start_y + Z.of_nat grid_size in
      let start_x := col * Z.of_nat grid_size in
      let end_x := start_x + Z.of_nat grid_size in
      let current_pattern := sector_order_pattern s in
      let placed :=
        if apply_pattern_to_heightmap s
           && String.eqb current_pattern avatar_vertical
        then data else np_flipud data in
      combined_map ← slice2_update (λ _ new, new) start_y end_y start_x end_x
                       placed (asm_map a);
      let displayed := asm_displayed a ++ [heightmap_sector_index] in
      match asm_texture a, sectors_textures v !! texture_sector_index with
      | Some combined_texture, Some texture =>
          let placed_texture :=
            if String.eqb (texture_layer s) "shadow" then texture
            else if String.eqb current_pattern avatar_vertical then texture
            else np_flipud texture in
          combined_texture ← slice2_update (λ _ new, new)
                               start_y end_y start_x end_x
                               placed_texture combined_texture;
          mret (mkAssembly combined_map (Some combined_texture) displayed
                  (asm_missing a))
      | _, _ =>
          mret (mkAssembly combined_map (asm_texture a) displayed
                  (asm_missing a))
      end
  | None =>
      mret (mkAssembly (asm_map a) (asm_texture a) (asm_displayed a)
              (asm_missing a ++ [heightmap_sector_index]))
  end.

(** The seam blending branch of [update_display]. *)
Definition blend_display (v : Viewer) (combined_texture : option (array2 rgb))
  : result Assembly :=
  let s := settings v in
  let blend P Acc Out (ops : pixel_ops P Acc Out) (is_texture : bool) :=
    apply_seam_blending ops is_texture (seam_overlap_pixels s)
      (seam_blend_mode s) (sector_order_pattern s) in
  combined_map ←
    (if apply_pattern_to_heightmap s then
       blend _ _ _ height_ops false (sectors_data v) (sectors_x s) (sectors_y s)
     else
       let flipped_heightmap_dict := np_flipud <$> sectors_data v in
       blend _ _ _ height_ops false flipped_heightmap_dict
         (sectors_x s) (sectors_y s));
  combined_texture ←
    (match combined_texture with
     | Some _ =>
         if bool_decide (sectors_textures v = ∅) then Returns combined_texture
         else blend _ _ _ texture_ops true (sectors_textures v)
                (sectors_x s) (sectors_y s)
     | None => Returns None
     end);
  (* [combined_map.copy()] on [None] would raise [AttributeError]. *)
  match combined_map with
  | None => Raises AttributeError
  | Some combined_map =>
      mret (mkAssembly combined_map combined_texture
              (fst <$> map_to_list (sectors_data v)) [])
  end.

(** [update_display]; [Returns None] is the early [return] taken when no
    sector is loaded. *)
Definition update_display (v : Viewer) : result (option Display) :=
  let s := settings v in
  if bool_decide (sectors_data v = ∅) then Returns None
  else
    let total_width := sectors_x s * Z.of_nat grid_size in
    let total_height := sectors_y s * Z.of_nat grid_size in
    combined_map ← np_zeros 0%Qc total_height total_width;
    combined_texture ←
      (if enable_textures s && negb (bool_decide (sectors_textures v = ∅))
       then t ← np_zeros ((0, 0, 0) : rgb) total_height total_width;
            mret (Some t)
       else mret None);
    let use_seam_blending :=
      enable_seam_blending s && (0 <? seam_overlap_pixels s) in
    a ← (if use_seam_blending then blend_display v combined_texture
         else for_each (grid_cells (sectors_x s) (sectors_y s)) (place_cell v)
                (mkAssembly combined_map combined_texture [] []));
    let rotation := map_rotation s in
    let combined_texture :=
      match asm_texture a with
      | Some t =>
          if negb (rotation =? 0) then
            if rotation =? 90 then Some (np_rot90 t 3)
            else if rotation =? 180 then Some (np_rot90 t 2)
            else if rotation =? 270 then Some (np_rot90 t 1)
            else Some t
          else Some t
      | None => None
      end in
    let total_slots := sectors_x s * sectors_y s in
    let displayed_count := length (asm_displayed a) in
    let missing_count := length (asm_missing a) in
    mret (Some (mkDisplay (asm_map a) combined_texture
                  (asm_displayed a) (asm_missing a)
                  (if (0 <? missing_count)%nat
                   then InfoMissing displayed_count total_slots missing_count
                   else InfoComplete displayed_count total_slots))).

(** The missing count shown to the user, if any. *)
Definition reported_missing (d : Display) : nat :=
  match info d with
  | InfoMissing _ _ missing_count => missing_count
  | InfoComplete _ _ => 0
  end.




Definition result_map {A B} (f : A → B) (r : result A) : result B :=
  match r with
  | Returns a => Returns (f a)
  | Raises e => Raises e
  end.

(** What a run reports to the user: the displayed and the missing sector
    indices and the status line. *)
Definition display_report (r : result (option Display))
  : option (list Z * list Z * display_info) :=
  match r with
  | Returns (Some d) => Some (displayed_sectors d, missing_sectors d, info d)
  | _ => None
  end.

(** ** Loading a directory: [load_sectors]

    A sector file is the outcome of [int(filename[2:-6])] ([None] when it
    raises [ValueError]) together with the bytes of the file.  Textures are
    loaded by the image library and are not part of this model. *)
Record SectorFile := mkSectorFile {
  file_sector_num : option Z;
  file_contents : list byte
}.

Record Loaded := mkLoaded {
  loaded_sectors_data : gmap Z (array2 Qc);
  loaded_water_data : gmap Z WaterData;
  sector_numbers : list Z;
  loaded_count : nat
}.

(** The body of [for file_path in files]. *)
Definition load_file (st : Loaded) (f : SectorFile) : Loaded :=
  match file_sector_num f with
  | None => st
  | Some sector_num =>
      match load_single_sector (file_contents f) with
      | Some height_data =>
          let water := parse_water_from_sector (file_contents f) sector_num in
          mkLoaded (<[sector_num := height_data]> (loaded_sectors_data st))
                   (<[sector_num := water]> (loaded_water_data st))
                   (sector_numbers st ++ [sector_num])
                   (S (loaded_count st))
      | None => st
      end
  end.

Definition load_sectors (files : list SectorFile) : Loaded :=
  foldl load_file (mkLoaded ∅ ∅ [] 0) files.


(** ** Notions used to state the properties *)

(** An array of [h] rows of [w] elements. *)
Definition has_shape {A} (h w : nat) (a : array2 A) : Prop :=
  length a = h ∧ Forall (λ row, length row = w) a.

(** Every sector of a collection is a [grid_size] by [grid_size] array. *)
Definition well_shaped {A} (sectors_dict : gmap Z (array2 A)) : Prop :=
  ∀ k d, sectors_dict !! k = Some d → has_shape grid_size grid_size d.

(** The sector that holds the value [v] in every cell. *)
Definition uniform_sector {A} (v : A) : array2 A :=
  replicate grid_size (replicate grid_size v).

(** Every sector of a collection is the uniform sector of value [v]. *)
Definition all_uniform {A} (v : A) (sectors_dict : gmap Z (array2 A)) : Prop :=
  ∀ k d, sectors_dict !! k = Some d → d = uniform_sector v.




(** The two accumulators of the seam blender have [h] rows of [w] pixels. *)
Definition accumulators_shaped {Acc} (h w : nat)
    (state : array2 Acc * array2 Qc) : Prop :=
  has_shape h w state.1 ∧ has_shape h w state.2.

(** The collection that holds the uniform sector of value [v] under the
    indices [0], ..., [n - 1]. *)
Definition uniform_collection {A} (n : nat) (v : A) : gmap Z (array2 A) :=
  list_to_map ((λ i : nat, (Z.of_nat i, uniform_sector v)) <$> seq 0 n).




(** ** Concrete inputs used by the examples *)

(** The example of the specification: the bytes [00 00 80 3F] at offset
    0xB0 are the float 1.0. *)
Definition water_one_buffer : list byte :=
  replicate 176 x00 ++ [x00; x00; x80; x3f].

(** A dry sector whose buffer holds a water material path. *)
Definition dry_buffer_with_material : list byte :=
  replicate 180 x00
  ++ list_byte_of_string "graphics\_materials\editor\water_lake" ++ [x00].

(** A 2 x 2 request over a collection that lacks sector 3, composed by the
    standard path or by the seam blender. *)
Definition three_of_four (seam : bool) : Viewer :=
  mkViewer
    (mkSettings 2 2 false seam 2 "Smooth Feather" "Bottom-Left Sequential"
       false "color" 270)
    (uniform_collection 3 (Qc_of_Z 7)) ∅.

(** A sector file that lacks the last two (skipped) bytes. *)
Definition short_by_two : list byte := replicate (Z.to_nat 17606) x00.

(** A 2 x 1 request with textures, rotation as given. *)
Definition textured_pair (rotation : Z) : Viewer :=
  mkViewer
    (mkSettings 2 1 true false 2 "Linear" "Top-Left Sequential"
       true "color" rotation)
    (uniform_collection 2 (Qc_of_Z 7))
    (uniform_collection 2 ((10, 20, 30) : rgb)).


(** A 4 x 3 request that leaves the ordering to the textures, and a 2 x 2
    request that applies the vertical game layout to the heights. *)
Definition plain_grid : Settings :=
  mkSettings 4 3 false false 0 "Linear" avatar_vertical false "color" 0.

Definition patterned_grid : Settings :=
  mkSettings 2 2 false false 0 "Linear" avatar_vertical true "color" 0.

(** A sector file cut inside its header, and a 1 x 1 request over the
    collection that holds what the decoder makes of it. *)
Definition header_only : list byte := replicate 700 x00.

Definition header_only_viewer : Viewer :=
  mkViewer
    (mkSettings 1 1 false false 0 "Linear" "Bottom-Left Sequential" false
       "color" 0)
    {[ 0 := replicate 65 [] ]} ∅.

(** A full sector file whose first height is 256 (the bytes [00 01]), the
    directory that holds it as sector 0, and the 1 x 1 request over what
    the loader makes of that directory. *)
Definition one_peak : list byte :=
  replicate 708 x00 ++ [x00; x01] ++ replicate (Z.to_nat 16898) x00.

Definition one_peak_directory : list SectorFile :=
  [mkSectorFile (Some 0) one_peak].

Definition one_peak_viewer : Viewer :=
  mkViewer
    (mkSettings 1 1 false false 0 "Linear" "Bottom-Left Sequential" false
       "color" 0)
    (loaded_sectors_data (load_sectors one_peak_directory)) ∅.

(** ** Notions used to state the properties of the standard path *)

(** The pixel in row [y] and column [x] of an array. *)
Definition pixel {A} (a : array2 A) (y x : nat) : option A :=
  row ← a !! y; row !! x.

(** The two sector indices that the loop of [update_display] computes for
    the cell [(display_row, col)]. *)
Definition heightmap_sector_index (s : Settings) (display_row col : Z) : Z :=
  if apply_pattern_to_heightmap s then
    get_sector_index_from_position (sector_order_pattern s)
      display_row col (sectors_x s) (sectors_y s)
  else
    let sector_row := sectors_y s - 1 - display_row in
    sector_row * sectors_x s + col.

Definition texture_sector_index (s : Settings) (display_row col : Z) : Z :=
  get_sector_index_from_position (sector_order_pattern s)
    display_row col (sectors_x s) (sectors_y s).

(** The orientation in which the loop stores a sector and a texture. *)
Definition placed_heights (s : Settings) (data : array2 Qc) : array2 Qc :=
  if apply_pattern_to_heightmap s
     && String.eqb (sector_order_pattern s) avatar_vertical
  then data else np_flipud data.

Definition placed_texture (s : Settings) (texture : array2 rgb) : array2 rgb :=
  if String.eqb (texture_layer s) "shadow" then texture
  else if String.eqb (sector_order_pattern s) avatar_vertical then texture
  else np_flipud texture.

(** The cell that holds the pixel of row (or column) [p], and the place of
    [p] inside that cell. *)
Definition cell_of (p : nat) : Z := Z.of_nat (p / grid_size)%nat.
Definition within_cell (p : nat) : nat := (p mod grid_size)%nat.

(** The height that the mosaic is to show at [(y, x)]: the sample of the
    sector of that cell, zero where the collection has no such sector. *)
Definition mosaic_height (v : Viewer) (y x : nat) : Qc :=
  let s := settings v in
  match sectors_data v !! heightmap_sector_index s (cell_of y) (cell_of x) with
  | Some data =>
      default 0%Qc (pixel (placed_heights s data) (within_cell y) (within_cell x))
  | None => 0%Qc
  end.

(** The colour that the mosaic is to show at [(y, x)]: the texture of the
    cell, black where the height sector or the texture is absent. *)
Definition mosaic_colour (v : Viewer) (y x : nat) : rgb :=
  let s := settings v in
  match sectors_data v !! heightmap_sector_index s (cell_of y) (cell_of x),
        sectors_textures v !! texture_sector_index s (cell_of y) (cell_of x)
  with
  | Some _, Some texture =>
      default (0, 0, 0) (pixel (placed_texture s texture)
                           (within_cell y) (within_cell x))
  | _, _ => (0, 0, 0)
  end.

(** The standard path is taken. *)
Definition standard_path (s : Settings) : Prop :=
  enable_seam_blending s && (0 <? seam_overlap_pixels s) = false.

(** The indices of the cells of the grid, in the order of the loop. *)
Definition cell_indices (s : Settings) : list Z :=
  (λ cell : Z * Z, heightmap_sector_index s cell.1 cell.2)
    <$> grid_cells (sectors_x s) (sectors_y s).

(** What the loop of the standard path has established once the cells
    [visited] are done: both buffers show the mosaic on the visited cells
    and their initial value elsewhere, and the two lists split the indices
    of the visited cells by presence in the collection. *)
Definition shows {A} (h w : nat) (zero : A) (f : nat → nat → A)
    (visited : list (Z * Z)) (buffer : array2 A) : Prop :=
  has_shape h w buffer
  ∧ ∀ y x, (y < h)%nat → (x < w)%nat →
      pixel buffer y x
      = Some (if decide ((cell_of y, cell_of x) ∈ visited) then f y x
              else zero).

Definition standard_invariant (v : Viewer) (h w : nat) (textured : bool)
    (visited : list (Z * Z)) (a : Assembly) : Prop :=
  shows h w 0%Qc (mosaic_height v) visited (asm_map a)
  ∧ match asm_texture a with
    | Some t => textured = true
                ∧ shows h w ((0, 0, 0) : rgb) (mosaic_colour v) visited t
    | None => textured = false
    end
  ∧ asm_displayed a
    = filter (λ i, is_Some (sectors_data v !! i))
        ((λ cell : Z * Z, heightmap_sector_index (settings v) cell.1 cell.2)
           <$> visited)
  ∧ asm_missing a
    = filter (λ i, ¬ is_Some (sectors_data v !! i))
        ((λ cell : Z * Z, heightmap_sector_index (settings v) cell.1 cell.2)
           <$> visited).

(** The end of [update_display]: the rotation of the texture and the
    status line, from the state that the assembly has reached. *)
Definition finish_display (s : Settings) (a : Assembly) : Display :=
  let rotation := map_rotation s in
  let combined_texture :=
    match asm_texture a with
    | Some t =>
        if negb (rotation =? 0) then
          if rotation =? 90 then Some (np_rot90 t 3)
          else if rotation =? 180 then Some (np_rot90 t 2)
          else if rotation =? 270 then Some (np_rot90 t 1)
          else Some t
        else Some t
    | None => None
    end in
  let total_slots := sectors_x s * sectors_y s in
  let displayed_count := length (asm_displayed a) in
  let missing_count := length (asm_missing a) in
  mkDisplay (asm_map a) combined_texture (asm_displayed a) (asm_missing a)
    (if (0 <? missing_count)%nat
     then InfoMissing displayed_count total_slots missing_count
     else InfoComplete displayed_count total_slots).

(** The size in pixels of a mosaic of [n] sectors in a row. *)
Definition mosaic_size (n : Z) : nat := Z.to_nat (n * Z.of_nat grid_size).

(** Textures are requested and at least one is loaded. *)
Definition textures_shown (v : Viewer) : bool :=
  enable_textures (settings v)
  && negb (bool_decide (sectors_textures v = ∅)).

(** ** Water overlay of [update_display]

    What the loop [for sector_num, water in self.water_data.items()] does
    for one sector: the rectangle of [grid_size] by [grid_size] pixels is
    drawn at [(x_start, y_start)], or the sector is skipped by [continue],
    or [sector_num % sectors_x] raises [ZeroDivisionError]. *)
Inductive overlay :=
  | Drawn (x_start y_start : Z)
  | Skipped
  | ZeroDivision.

(** [for col in range(sectors_x)] with its [break]. *)
Fixpoint scan_cols (pattern : string) (sectors_x sectors_y sector_num : Z)
    (display_row : Z) (cols : list Z) : option (Z * Z) :=
  match cols with
  | [] => None
  | col :: cols' =>
      if get_sector_index_from_position pattern display_row col
           sectors_x sectors_y =? sector_num
      then Some (col * Z.of_nat grid_size, display_row * Z.of_nat grid_size)
      else scan_cols pattern sectors_x sectors_y sector_num display_row cols'
  end.

(** [for display_row in range(sectors_y)] with [if found: break]. *)
Fixpoint scan_rows (pattern : string) (sectors_x sectors_y sector_num : Z)
    (rows : list Z) : option (Z * Z) :=
  match rows with
  | [] => None
  | display_row :: rows' =>
      match scan_cols pattern sectors_x sectors_y sector_num display_row
              (seqZ 0 sectors_x) with
      | Some start => Some start
      | None => scan_rows pattern sectors_x sectors_y sector_num rows'
      end
  end.

Definition water_overlay (s : Settings) (sector_num : Z) (water : WaterData)
  : overlay :=
  if negb (has_water water) then Skipped
  else if apply_pattern_to_heightmap s then
    match scan_rows (sector_order_pattern s) (sectors_x s) (sectors_y s)
            sector_num (seqZ 0 (sectors_y s)) with
    | Some (x_start, y_start) => Drawn x_start y_start
    | None => Skipped
    end
  else if sectors_x s =? 0 then ZeroDivision
  else
    let col := sector_num mod sectors_x s in
    let sector_row := sector_num / sectors_x s in
    let display_row := sectors_y s - 1 - sector_row in
    let x_start := col * Z.of_nat grid_size in
    let y_start := display_row * Z.of_nat grid_size in
    Drawn x_start y_start.

(** ** Atlas textures: [build_atlas_mapping] and
    [get_atlas_subsector_coords] *)

(** [sub in s] on strings.  The strings are held as UTF-8, in which an
    ASCII text occurs exactly where it occurs as code points. *)
Definition str_in (sub s : string) : bool :=
  negb (bytes_find (list_byte_of_string sub) (list_byte_of_string s) 0 =? -1).

(** [sorted(list(atlas_numbers))] for the set [atlas_numbers] of the
    numbers read off the names of the atlas files; [found] lists them in
    the order of the files. *)
Definition sorted_atlas_numbers (found : list Z) : list Z :=
  merge_sort Z.le (elements (list_to_set found : gset Z)).

(** [enumerate(l)]. *)
Definition enumerate {A} (l : list A) : list (Z * A) :=
  imap (λ i a, (Z.of_nat i, a)) l.

(** The loop that fills [self.atlas_mapping]: sector number to atlas number
    and sub-sector. *)
Definition map_atlases (atlas_numbers : list Z) : gmap Z (Z * Z) :=
  foldl (λ atlas_mapping '(atlas_index, atlas_num),
           let base_sector := atlas_index * 4 in
           foldl (λ atlas_mapping sub_sector,
                    let sector_num := base_sector + sub_sector in
                    <[sector_num := (atlas_num, sub_sector)]> atlas_mapping)
             atlas_mapping (seqZ 0 4))
    ∅ (enumerate atlas_numbers).

(** [build_atlas_mapping] for an atlas layer (any layer but "shadow"). *)
Definition build_atlas_mapping (found : list Z) : gmap Z (Z * Z) :=
  map_atlases (sorted_atlas_numbers found).

Inductive quadrant := TL | TR | BL | BR.

(** The dictionary [quadrants]: [(y_start, y_end, x_start, x_end)]. *)
Definition quadrants (q : quadrant) (half_h half_w height width : Z)
  : Z * Z * Z * Z :=
  match q with
  | TL => (0, half_h, 0, half_w)
  | TR => (0, half_h, half_w, width)
  | BL => (half_h, height, 0, half_w)
  | BR => (half_h, height, half_w, width)
  end.

(** The list [mapping] selected by the arrangement [pattern]. *)
Definition subsector_mapping (pattern : string) : list quadrant :=
  if str_in "Standard" pattern then [TL; TR; BL; BR]
  else if str_in "Rotated CW" pattern then [TR; BR; TL; BL]
  else if str_in "Rotated CCW" pattern then [BL; TL; BR; TR]
  else if str_in "Rotated 180" pattern then [BR; BL; TR; TL]
  else if str_in "Flipped H" pattern then [TR; TL; BR; BL]
  else if str_in "Flipped V" pattern then [BL; BR; TL; TR]
  else if str_in "By Column Rev" pattern then [BL; TL; BR; TR]
  else if str_in "By Column" pattern then [TL; BL; TR; BR]
  else [TL; TR; BL; BR].

Definition get_atlas_subsector_coords (pattern : string)
    (sub_sector half_h half_w height width : Z) : result (Z * Z * Z * Z) :=
  let mapping := subsector_mapping pattern in
  i ← np_index sub_sector (length mapping);
  match mapping !! i with
  | Some quadrant => Returns (quadrants quadrant half_h half_w height width)
  | None => Raises IndexError
  end.

(** The arrangements offered by the viewer (the values of the combo box). *)
Definition atlas_patterns : list string :=
  [ "Standard [0=TL, 1=TR, 2=BL, 3=BR]";
    "Rotated CW [0=TR, 1=BR, 2=TL, 3=BL]";
    "Rotated CCW [0=BL, 1=TL, 2=BR, 3=TR]";
    "Rotated 180° [0=BR, 1=BL, 2=TR, 3=TL]";
    "Flipped H [0=TR, 1=TL, 2=BR, 3=BL]";
    "Flipped V [0=BL, 1=BR, 2=TL, 3=TR]";
    "By Column [0=TL, 1=BL, 2=TR, 3=BR]";
    "By Column Rev [0=BL, 1=TL, 2=BR, 3=TR]" ].

(** The sub-texture [sub_sector] of an atlas image of [height] rows and
    [width] columns, cut as [load_sector_texture] cuts it, holds the pixel
    [(y, x)]. *)
Definition covers (pattern : string) (height width sub_sector y x : Z)
  : Prop :=
  ∃ y_start y_end x_start x_end,
    get_atlas_subsector_coords pattern sub_sector (height / 2) (width / 2)
      height width = Returns (y_start, y_end, x_start, x_end)
    ∧ y_start ≤ y < y_end ∧ x_start ≤ x < x_end.

(** The text of a label that assigns the quadrant [q] to sub-sector [k]. *)
Definition quadrant_name (q : quadrant) : string :=
  match q with TL => "TL" | TR => "TR" | BL => "BL" | BR => "BR" end.

Definition label_entry (k : nat) (q : quadrant) : string :=
  String (Ascii.ascii_of_nat (48 + k)) ("=" ++ quadrant_name q).

(** The number of the 2 x 2 block of a cell under the game layouts: blocks
    are counted along the rows by the horizontal layout and down the
    columns by the other three. *)
Definition block_index (pattern : string) (display_row col sectors_x sectors_y : Z)
  : Z :=
  if String.eqb pattern avatar_horizontal
  then display_row / 2 * (sectors_x / 2) + col / 2
  else col / 2 * (sectors_y / 2) + display_row / 2.

(** ** The first viewer: [update_display] of
    [Terrain_Data_To_Heightmap_Avatar.py]

    The viewer without textures, orderings and seam blending: sector 0 is
    the bottom left cell and every sector is stored upside down. *)
Record Display1 := mkDisplay1 {
  combined_map1 : array2 Qc;
  displayed_sectors1 : list Z;
  missing_sectors1 : list Z;
  info1 : display_info
}.

(** The body of its loop; the state is [combined_map],
    [displayed_sectors] and [missing_sectors]. *)
Definition place_cell1 (sectors_x sectors_y : Z)
    (sectors_data : gmap Z (array2 Qc)) (cell : Z * Z)
    (st : array2 Qc * list Z * list Z) : result (array2 Qc * list Z * list Z) :=
  let '(display_row, col) := cell in
  let '(combined_map, displayed_sectors, missing_sectors) := st in
  let sector_row := sectors_y - 1 - display_row in
  let sector_index := sector_row * sectors_x + col in
  match sectors_data !! sector_index with
  | Some data =>
      let start_y := display_row * Z.of_nat grid_size in
      let end_y := start_y + Z.of_nat grid_size in
      let start_x := col * Z.of_nat grid_size in
      let end_x := start_x + Z.of_nat grid_size in
      let flipped_sector := np_flipud data in
      combined_map ← slice2_update (λ _ new, new) start_y end_y start_x end_x
                       flipped_sector combined_map;
      mret (combined_map, displayed_sectors ++ [sector_index], missing_sectors)
  | None =>
      mret (combined_map, displayed_sectors, missing_sectors ++ [sector_index])
  end.

Definition update_display1 (sectors_x sectors_y : Z)
    (sectors_data : gmap Z (array2 Qc)) : result (option Display1) :=
  if bool_decide (sectors_data = ∅) then Returns None
  else
    let total_width := sectors_x * Z.of_nat grid_size in
    let total_height := sectors_y * Z.of_nat grid_size in
    combined_map ← np_zeros 0%Qc total_height total_width;
    st ← for_each (grid_cells sectors_x sectors_y)
           (place_cell1 sectors_x sectors_y sectors_data)
           (combined_map, [], []);
    let '(combined_map, displayed_sectors, missing_sectors) := st in
    let total_slots := sectors_x * sectors_y in
    let displayed_count := length displayed_sectors in
    let missing_count := length missing_sectors in
    mret (Some (mkDisplay1 combined_map displayed_sectors missing_sectors
                  (if (0 <? missing_count)%nat
                   then InfoMissing displayed_count total_slots missing_count
                   else InfoComplete displayed_count total_slots))).

(** What the first viewer would keep of a display of the second. *)
Definition heights_view (d : Display) : Display1 :=
  mkDisplay1 (current_combined_map d) (displayed_sectors d)
    (missing_sectors d) (info d).

(** The state of the loop of the second viewer carries no texture and
    holds what the state of the first holds. *)
Definition same_assembly (a : Assembly)
    (st : array2 Qc * list Z * list Z) : Prop :=
  asm_texture a = None ∧ st = (asm_map a, asm_displayed a, asm_missing a).

(** Two outcomes agree: both return, in related states, or both raise the
    same exception. *)
Definition outcomes_agree {S T} (R : S → T → Prop) (x : result S)
    (y : result T) : Prop :=
  match x, y with
  | Returns s, Returns t => R s t
  | Raises e, Raises e' => e = e'
  | _, _ => False
  end.

(** ** The grid suggested at the end of [load_sectors]

    [math.sqrt] and [/] are binary64 operations.  For the counts of files
    that a directory can hold (below 2^52) the ceiling of their results is
    the exact ceiling, which is what is modelled here. *)
Definition math_ceil_sqrt (n : Z) : Z := Z.sqrt_up n.

Definition math_ceil_div (a b : Z) : Z := - (- a / b).

(** [grid] holds [sectors_x] and [sectors_y] before the suggestion. *)
Definition suggest_grid (sector_numbers : list Z) (loaded_count : Z)
    (grid : Z * Z) : Z * Z :=
  match sector_numbers with
  | [] => grid
  | _ :: _ =>
      let suggested_size := math_ceil_sqrt loaded_count in
      if suggested_size <=? 100
      then (suggested_size, math_ceil_div loaded_count suggested_size)
      else grid
  end.

(** ** The label of sector 0: [update_sector_zero_label] *)

(** The dictionary [pattern_to_position]. *)
Definition pattern_to_position : gmap string string :=
  list_to_map
    [ (avatar_vertical, "Top-Left (2x2 blocks ↓, swap 2↔3)");
      (avatar_horizontal, "Top-Left (2x2 blocks →, swap 1↔2)");
      (avatar_no_swap, "Top-Left (2x2 blocks ↓, no swap)");
      (avatar_swap_0_3, "Top-Left (2x2 blocks ↓, swap 0↔3)");
      ("Bottom-Left Sequential", "Bottom-Left (→ then ↑)");
      ("Top-Left Sequential", "Top-Left (→ then ↓)");
      ("Bottom-Right Sequential", "Bottom-Right (← then ↑)");
      ("Top-Right Sequential", "Top-Right (← then ↓)");
      ("Bottom-Left by Column", "Bottom-Left (↑ then →)");
      ("Top-Left by Column", "Top-Left (↓ then →)") ].

(** The text that [update_sector_zero_label] shows for [pattern]. *)
Definition update_sector_zero_label (pattern : string) : string :=
  default "Unknown" (pattern_to_position !! pattern).

(** The cell of the display that a label names by its first words. *)
Definition named_corner (label : string) (sectors_x sectors_y : Z)
  : option (Z * Z) :=
  if String.prefix "Top-Left" label then Some (0, 0)
  else if String.prefix "Top-Right" label then Some (0, sectors_x - 1)
  else if String.prefix "Bottom-Left" label then Some (sectors_y - 1, 0)
  else if String.prefix "Bottom-Right" label
       then Some (sectors_y - 1, sectors_x - 1)
  else None.

(** ** Texture containers: [load_xbt_as_dds] *)

#[global] Instance byte_eq_decision : EqDecision byte := Byte.byte_eq_dec.

(** [b'TBX\x00'] and [b'DDS ']. *)
Definition xbt_magic : list byte := list_byte_of_string "TBX" ++ [x00].
Definition dds_magic : list byte := list_byte_of_string "DDS ".

(** [load_xbt_as_dds] up to the call of the image library: the result is
    the buffer handed to [Image.open], or [None] where the function returns
    [None] before that call. *)
Definition load_xbt_as_dds (contents : list byte) : option (list byte) :=
  let magic := take 4 contents in
  if bool_decide (magic ≠ xbt_magic) then None
  else
    let dds_data := drop 32 contents in
    if negb (is_prefix dds_magic dds_data) then None
    else Some dds_data.
(** * Part II: properties *)

(** ** Properties of the sector decoder *)

Section decoder.
Implicit Types (s : list byte) (row : list Qc).


Lemma stream_cell_skip b0 b1 b2 b3 s i :
  stream_cell (b0 :: b1 :: b2 :: b3 :: s) (S i) = stream_cell s i.
Proof.
  unfold stream_cell.
  replace (4 * S i)%nat with (S (S (S (S (4 * i))))) by lia.
  reflexivity.
Qed.

Lemma int_from_bytes_little_2 b0 b1 :
  int_from_bytes_little [b0; b1] = byte_to_Z b0 + 256 * byte_to_Z b1.
Proof. unfold int_from_bytes_little. cbn. lia. Qed.

Lemma read_row_step n b0 b1 s row :
  read_row (S n) (b0 :: b1 :: s) row
  = read_row n (drop 2 s) (row ++ [stream_cell (b0 :: b1 :: s) 0]).
Proof.
  cbn [read_row bytesio_read take drop length Nat.ltb Nat.leb].
  by rewrite int_from_bytes_little_2.
Qed.


Lemma avail_cons4 b0 b1 b2 b3 s :
  avail (b0 :: b1 :: b2 :: b3 :: s) = S (avail s).
Proof.
  unfold avail. cbn [length].
  replace (S (S (S (S (length s)))) + 2)%nat
    with (length s + 2 + 1 * 4)%nat by lia.
  rewrite Nat.div_add by lia. lia.
Qed.

(** One run of the inner loop: it appends the cells that are present, at
    most [n] of them, and leaves the stream after [4 * n] bytes. *)
Lemma read_row_spec n : ∀ s row,
  read_row n s row
  = (row ++ (stream_cell s <$> seq 0 (n `min` avail s)), drop (4 * n) s).
Proof.
  induction n as [|n IH]; intros s row.
  - cbn. by rewrite app_nil_r, drop_0.
  - destruct s as [|b0 [|b1 s]].
    { change (avail []) with 0%nat.
      by rewrite Nat.min_0_r, drop_nil, app_nil_r. }
    { change (avail [b0]) with 0%nat.
      rewrite Nat.min_0_r, app_nil_r, drop_ge by (cbn [length]; lia).
      reflexivity. }
    rewrite read_row_step, IH, drop_drop.
    replace (4 * S n)%nat with (S (S (2 + 4 * n))) by lia.
    cbn [drop]. f_equal. rewrite <- app_assoc. f_equal.
    destruct s as [|b2 [|b3 s]].
    + change (avail (drop 2 [])) with 0%nat.
      change (avail [b0; b1]) with 1%nat.
      by rewrite <- Nat.succ_min_distr, Nat.min_0_r.
    + change (avail (drop 2 [b2])) with 0%nat.
      change (avail [b0; b1; b2]) with 1%nat.
      by rewrite <- Nat.succ_min_distr, Nat.min_0_r.
    + rewrite avail_cons4, <- Nat.succ_min_distr.
      change (drop 2 (b2 :: b3 :: s)) with s.
      cbn [seq fmap list_fmap app]. f_equal.
      rewrite <- fmap_S_seq, <- list_fmap_compose.
      apply list_fmap_ext. intros _ i _. cbn.
      symmetry. apply stream_cell_skip.
Qed.


Lemma read_rows_spec n : ∀ s height_map,
  read_rows n s height_map
  = height_map
    ++ ((λ y, stream_row (drop (4 * grid_size * y) s)) <$> seq 0 n).
Proof.
  induction n as [|n IH]; intros s height_map.
  - cbn. by rewrite app_nil_r.
  - cbn [read_rows]. rewrite read_row_spec, IH, <- app_assoc.
    f_equal. cbn [seq fmap list_fmap app]. f_equal.
    rewrite <- fmap_S_seq, <- list_fmap_compose.
    apply list_fmap_ext. intros _ y _. cbn [compose].
    rewrite drop_drop. do 2 f_equal. lia.
Qed.

Lemma length_stream_row s :
  length (stream_row s) = (grid_size `min` avail s)%nat.
Proof. unfold stream_row. by rewrite length_fmap, length_seq. Qed.

Lemma load_single_sector_rows contents :
  load_single_sector contents
  = np_array ((λ y, stream_row (drop (4 * grid_size * y)
                       (file_read_at 708 (Z.to_nat 16900) contents)))
              <$> seq 0 grid_size).
Proof. unfold load_single_sector. by rewrite read_rows_spec. Qed.

Lemma np_array_uniform {A} (rows : list (list A)) (w : nat) :
  Forall (λ r, length r = w) rows → np_array rows = Some rows.
Proof.
  intros Hall. destruct rows as [|r rows]; [done|].
  unfold np_array.
  assert (forallb (λ r', length r' =? length r)%nat (r :: rows) = true)
    as ->; [|done].
  apply forallb_forall. intros r' Hin. apply Nat.eqb_eq.
  rewrite Forall_forall in Hall.
  rewrite (Hall r'), (Hall r); [done|left|by apply list_elem_of_In].
Qed.

Lemma np_array_ragged {A} (rows : list (list A)) (i j : nat) r1 r2 :
  rows !! i = Some r1 → rows !! j = Some r2 → length r1 ≠ length r2 →
  np_array rows = None.
Proof.
  intros Hi Hj Hne. destruct rows as [|r rows]; [done|].
  unfold np_array.
  destruct (forallb _ _) eqn:Hall; [|done]. exfalso.
  rewrite forallb_forall in Hall.
  apply Hne. transitivity (length r); [|symmetry];
    apply Nat.eqb_eq, Hall, list_elem_of_In, list_elem_of_lookup; eauto.
Qed.

Lemma np_array_Some {A} (rows g : list (list A)) :
  np_array rows = Some g → g = rows.
Proof.
  destruct rows as [|r rows]; cbn; [congruence|].
  destruct (_ && _); congruence.
Qed.

Lemma payload_length contents :
  length (file_read_at 708 (Z.to_nat 16900) contents)
  = (Z.to_nat 16900 `min` (length contents - 708))%nat.
Proof. unfold file_read_at. by rewrite length_take, length_drop. Qed.

Lemma avail_ge s (k : nat) : (4 * k ≤ length s + 2)%nat → (k ≤ avail s)%nat.
Proof. intros. unfold avail. apply Nat.div_le_lower_bound; lia. Qed.

Lemma avail_lt s (k : nat) : (length s + 2 < 4 * k)%nat → (avail s < k)%nat.
Proof. intros. unfold avail. apply Nat.Div0.div_lt_upper_bound; lia. Qed.

Lemma payload_cell contents y x :
  17608 ≤ Z.of_nat (length contents) → (y < 65)%nat → (x < 65)%nat →
  stream_cell (drop (4 * grid_size * y)
                 (file_read_at 708 (Z.to_nat 16900) contents)) x
  = spec_cell contents y x.
Proof.
  intros Hlen Hy Hx. unfold stream_cell, spec_cell, file_read_at, grid_size.
  rewrite !lookup_total_drop, !lookup_total_take_lt, !lookup_total_drop by lia.
  do 2 f_equal; [|f_equal]; do 2 f_equal; lia.
Qed.

Lemma byte_to_Z_range b : 0 ≤ byte_to_Z b ≤ 255.
Proof.
  unfold byte_to_Z. pose proof (Byte.to_N_bounded b). lia.
Qed.

Lemma int_div_128_range raw :
  0 ≤ raw ≤ 65535 →
  (0 ≤ int_div_128 raw ∧ int_div_128 raw ≤ int_div_128 65535)%Qc.
Proof.
  intros [Hlo Hhi]. unfold int_div_128, Qcdiv.
  assert (0 ≤ / Qc_of_Z 128)%Qc as Hinv.
  { apply Qclt_le_weak, Qcinv_pos. rewrite <- Z2Qc_inj_0.
    by apply (proj1 (Z2Qc_inj_lt 0 128)). }
  split.
  - apply Qcmult_nonneg_nonneg; [|done].
    rewrite <- Z2Qc_inj_0. by apply (proj1 (Z2Qc_inj_le 0 raw)).
  - apply Qcmult_le_compat_r; [|done].
    by apply (proj1 (Z2Qc_inj_le raw 65535)).
Qed.

Lemma stream_cell_range s i :
  (0 ≤ stream_cell s i ∧ stream_cell s i ≤ int_div_128 65535)%Qc
  ∧ ∃ k : Z, stream_cell s i = (Qc_of_Z k * (1 / Qc_of_Z 128))%Qc.
Proof.
  unfold stream_cell. split.
  - apply int_div_128_range.
    pose proof (byte_to_Z_range (s !!! (4 * i)%nat)).
    pose proof (byte_to_Z_range (s !!! S (4 * i)%nat)). lia.
  - eexists. unfold int_div_128, Qcdiv. by rewrite Qcmult_1_l.
Qed.

End decoder.

(** C1. A buffer of at least 708 + 16900 bytes decodes to the 65 x 65 grid
    whose cell (y, x) is the little-endian 16 bit integer found at byte
    708 + 4 * (65 * y + x), divided by 128; the two bytes after it are
    skipped. *)
Theorem load_single_sector_decodes (contents : list byte) :
  708 + 16900 ≤ Z.of_nat (length contents) →
  load_single_sector contents = Some (spec_grid contents)
  ∧ length (spec_grid contents) = 65%nat
  ∧ Forall (λ row, length row = 65%nat) (spec_grid contents).
Proof.
  intros Hlen. split; [|split].
  - rewrite load_single_sector_rows.
    assert (((λ y, stream_row (drop (4 * grid_size * y)
                (file_read_at 708 (Z.to_nat 16900) contents)))
             <$> seq 0 grid_size) = spec_grid contents) as ->.
    { unfold spec_grid. apply list_fmap_ext. intros i y Hy.
      apply lookup_seq in Hy as [-> Hi]. unfold stream_row.
      rewrite Nat.min_l.
      - apply list_fmap_ext. intros j x Hx.
        apply lookup_seq in Hx as [-> Hj].
        apply payload_cell; [lia|done..].
      - apply avail_ge. rewrite length_drop, payload_length.
        unfold grid_size in *. lia. }
    apply (np_array_uniform _ 65). unfold spec_grid.
    apply Forall_fmap, Forall_forall. intros y _. by cbn.
  - unfold spec_grid. by rewrite length_fmap, length_seq.
  - unfold spec_grid. apply Forall_fmap, Forall_forall. intros y _. by cbn.
Qed.

Lemma load_single_sector_decodes_witness :
  let contents := replicate (Z.to_nat 17608) x01 in
  708 + 16900 ≤ Z.of_nat (length contents)
  ∧ load_single_sector contents = Some (spec_grid contents).
Proof.
  intros contents.
  assert (708 + 16900 ≤ Z.of_nat (length contents)) as Hlen.
  { subst contents. rewrite length_replicate. lia. }
  split; [exact Hlen|].
  exact (proj1 (load_single_sector_decodes contents Hlen)).
Defined.

(** C10. Every height of a successfully decoded grid lies in
    [0, 65535/128] and is an integer multiple of 1/128. *)
Theorem decoded_heights_range (contents : list byte) (g : array2 Qc) :
  load_single_sector contents = Some g →
  ∀ row h, row ∈ g → h ∈ row →
    (0 ≤ h ∧ h ≤ Qc_of_Z 65535 / Qc_of_Z 128)%Qc
    ∧ ∃ k : Z, h = (Qc_of_Z k * (1 / Qc_of_Z 128))%Qc.
Proof.
  rewrite load_single_sector_rows. intros Hg row h Hrow Hh.
  apply np_array_Some in Hg as ->.
  apply list_elem_of_fmap in Hrow as (y & -> & _).
  apply list_elem_of_fmap in Hh as (x & -> & _).
  apply stream_cell_range.
Qed.

Lemma decoded_heights_range_witness :
  let contents := replicate (Z.to_nat 17608) x01 in
  let h := int_div_128 257 in
  load_single_sector contents = Some (replicate 65 (replicate 65 h))
  ∧ ((0 ≤ h ∧ h ≤ Qc_of_Z 65535 / Qc_of_Z 128)%Qc
     ∧ ∃ k : Z, h = (Qc_of_Z k * (1 / Qc_of_Z 128))%Qc).
Proof.
  intros contents h.
  assert (load_single_sector contents = Some (replicate 65 (replicate 65 h)))
    as Hg by (vm_compute; reflexivity).
  split; [exact Hg|].
  apply (decoded_heights_range contents _ Hg (replicate 65 h) h).
  - apply elem_of_replicate. split; [reflexivity|lia].
  - apply elem_of_replicate. split; [reflexivity|lia].
Defined.

(** A buffer that ends inside the grid, after at least one height and
    before the last one, makes the rows ragged: [np.array] raises and the
    decoder returns [None]. *)
Lemma load_single_sector_truncated (contents : list byte) :
  710 ≤ Z.of_nat (length contents) < 708 + 16898 →
  load_single_sector contents = None.
Proof.
  intros Hlen. rewrite load_single_sector_rows.
  set (payload := file_read_at 708 (Z.to_nat 16900) contents).
  assert (2 ≤ Z.of_nat (length payload) < 16898) as HL.
  { subst payload. rewrite payload_length. lia. }
  eapply (np_array_ragged _ 0 64).
  - rewrite list_lookup_fmap, lookup_seq_lt by (unfold grid_size; lia).
    reflexivity.
  - rewrite list_lookup_fmap, lookup_seq_lt by (unfold grid_size; lia).
    reflexivity.
  - rewrite !length_stream_row, Nat.mul_0_r, drop_0.
    change (0 + 64)%nat with 64%nat.
    set (rest := drop (4 * grid_size * 64) payload).
    assert (Z.of_nat (length rest) = Z.max 0 (Z.of_nat (length payload) - 16640))
      as Hrest.
    { subst rest. rewrite length_drop. unfold grid_size. lia. }
    unfold grid_size.
    destruct (decide (length payload + 2 < 260)%nat) as [Hsmall|Hbig].
    + pose proof (avail_ge payload 1 ltac:(lia)).
      pose proof (avail_lt payload 65 ltac:(lia)).
      pose proof (avail_lt rest 1 ltac:(lia)).
      lia.
    + pose proof (avail_ge payload 65 ltac:(lia)).
      pose proof (avail_lt rest 65 ltac:(lia)).
      lia.
Qed.

(** ** Properties of the water record parser *)

Lemma struct_unpack_f_4 (b0 b1 b2 b3 : byte) :
  ∃ h, struct_unpack_f [b0; b1; b2; b3] = Some h.
Proof. unfold struct_unpack_f. cbn [length Nat.eqb negb]. eauto. Qed.

Lemma height_bytes_spec (data : list byte) :
  (180 ≤ length data)%nat →
  take 4 (drop 176 data)
  = [data !!! 176%nat; data !!! 177%nat; data !!! 178%nat; data !!! 179%nat].
Proof.
  intros Hlen. apply list_eq_same_length with 4%nat.
  - reflexivity.
  - rewrite length_take, length_drop. lia.
  - intros i x y Hi Hx Hy.
    rewrite lookup_take_lt, lookup_drop in Hx by done.
    apply list_lookup_total_correct in Hx.
    do 4 (destruct i as [|i];
          [cbn [lookup list_lookup] in Hy; injection Hy as <-;
           by rewrite <- Hx|]).
    lia.
Qed.

Lemma int_from_bytes_little_4 b0 b1 b2 b3 :
  int_from_bytes_little [b0; b1; b2; b3]
  = byte_to_Z b0 + 256 * byte_to_Z b1 + 65536 * byte_to_Z b2
    + 16777216 * byte_to_Z b3.
Proof. unfold int_from_bytes_little. cbn. lia. Qed.

(** A float differs from [0.0] exactly when it is not one of the two zeros. *)
Lemma float_ne_zero (h : spec_float) :
  float_ne h float_zero = true ↔ ∀ s, h ≠ S754_zero s.
Proof.
  unfold float_ne, float_zero, SFeqb. destruct h as [s|s| |s m e]; cbn.
  - split; [discriminate|]. intros H. by destruct (H s).
  - destruct s; split; done.
  - split; done.
  - destruct s; split; done.
Qed.

Lemma low_bits_zero_iff (bits : Z) :
  0 ≤ bits →
  (Z.land (Z.shiftr bits 23) 255 = 0 ∧ Z.land bits (2 ^ 23 - 1) = 0)
  ↔ Z.land bits (2 ^ 31 - 1) = 0.
Proof.
  intros Hbits.
  change (2 ^ 31 - 1) with (Z.ones 31). change (2 ^ 23 - 1) with (Z.ones 23).
  change 255 with (Z.ones 8).
  rewrite !Z.land_ones, Z.shiftr_div_pow2 by lia.
  change (2 ^ 31) with 2147483648. change (2 ^ 23) with 8388608.
  change (2 ^ 8) with 256.
  Z.to_euclidean_division_equations. lia.
Qed.

(** The value read is a zero exactly when the 31 bits below the sign bit of
    the pattern are all clear. *)
Lemma struct_unpack_f_zero (b : list byte) (h : spec_float) :
  struct_unpack_f b = Some h →
  0 ≤ int_from_bytes_little b →
  (∃ s, h = S754_zero s) ↔ Z.land (int_from_bytes_little b) (2 ^ 31 - 1) = 0.
Proof.
  unfold struct_unpack_f. destruct (negb _); [done|].
  intros Heq Hbits. apply (inj Some) in Heq. subst h.
  rewrite <- (low_bits_zero_iff _ Hbits).
  destruct (Z.eqb_spec (Z.land (Z.shiftr (int_from_bytes_little b) 23) 255) 0)
    as [He|He].
  - destruct (Z.eqb_spec (Z.land (int_from_bytes_little b) (2 ^ 23 - 1)) 0)
      as [Hm|Hm].
    + split; eauto.
    + split; [intros [s [=]]|intros [_ ?]; done].
  - split; [|intros [? _]; done].
    destruct (_ =? 255); [destruct (_ =? 0)|]; intros [s [=]].
Qed.

Lemma parse_water_fields (data : list byte) (n : Z) (h : spec_float) :
  (176 + 4 ≤ length data)%nat →
  struct_unpack_f (take 4 (drop 176 data)) = Some h →
  has_water (parse_water_from_sector data n) = float_ne h float_zero
  ∧ water_height (parse_water_from_sector data n) = h.
Proof.
  intros Hlen Hh. unfold parse_water_from_sector, height_offset.
  assert ((length data <? 176 + 4)%nat = false) as ->
    by (apply Nat.ltb_ge; lia).
  rewrite Hh. destruct (float_ne h float_zero); [|done].
  by destruct (negb _).
Qed.

(** C2. The parser reports water exactly when the float at offset 0xB0
    differs from [0.0]; a buffer shorter than 0xB0 + 4 bytes gives the
    record without water and with height [0.0]. *)
Theorem parse_water_has_water (data : list byte) (n : Z) :
  let water := parse_water_from_sector data n in
  ((length data < 176 + 4)%nat →
     has_water water = false ∧ water_height water = float_zero)
  ∧ ((176 + 4 ≤ length data)%nat →
     ∃ h, struct_unpack_f (take 4 (drop 176 data)) = Some h
          ∧ water_height water = h
          ∧ (has_water water = true ↔ float_ne h float_zero = true)
          ∧ (has_water water = true
             ↔ Z.land (spec_water_bits data) (2 ^ 31 - 1) ≠ 0)).
Proof.
  intros water. split.
  - intros Hlen. subst water. unfold parse_water_from_sector, height_offset.
    apply Nat.ltb_lt in Hlen as ->. done.
  - intros Hlen. subst water.
    destruct (struct_unpack_f_4 (data !!! 176%nat) (data !!! 177%nat)
                (data !!! 178%nat) (data !!! 179%nat)) as [h Hh].
    rewrite <- height_bytes_spec in Hh by lia.
    destruct (parse_water_fields data n h Hlen Hh) as [Hw Hht].
    exists h. rewrite Hw. split; [done|]. split; [done|]. split; [done|].
    rewrite float_ne_zero.
    pose proof (struct_unpack_f_zero _ _ Hh) as Hz.
    rewrite height_bytes_spec, int_from_bytes_little_4 in Hz by lia.
    fold (spec_water_bits data) in Hz.
    rewrite <- Hz.
    + split; [intros H [s ->]; by apply (H s)|intros H s ->; eauto].
    + unfold spec_water_bits.
      pose proof (byte_to_Z_range (data !!! 176%nat)).
      pose proof (byte_to_Z_range (data !!! 177%nat)).
      pose proof (byte_to_Z_range (data !!! 178%nat)).
      pose proof (byte_to_Z_range (data !!! 179%nat)). lia.
Qed.

Lemma parse_water_has_water_witness :
  (has_water (parse_water_from_sector (replicate 10 x00) 0) = false
   ∧ water_height (parse_water_from_sector (replicate 10 x00) 0) = float_zero)
  ∧ has_water (parse_water_from_sector water_one_buffer 0) = true
  ∧ water_height (parse_water_from_sector water_one_buffer 0)
    = S754_finite false 8388608 (-23).
Proof.
  split.
  - apply (proj1 (parse_water_has_water (replicate 10 x00) 0)).
    rewrite length_replicate. lia.
  - destruct (proj2 (parse_water_has_water water_one_buffer 0))
      as (h & Hh & Hheight & Hwater & _).
    + unfold water_one_buffer.
      rewrite length_app, length_replicate. cbn [length]. lia.
    + assert (h = S754_finite false 8388608 (-23)) as ->.
      { vm_compute in Hh. congruence. }
      split; [|exact Hheight].
      apply Hwater. reflexivity.
Defined.

Example parse_water_zero_bytes :
  has_water (parse_water_from_sector (replicate 180 x00) 0) = false.
Proof. reflexivity. Qed.

(** C9. The material path is only ever set in a record that has water:
    without water it is [None], whatever the buffer contains. *)
Theorem material_path_needs_water (data : list byte) (n : Z) :
  has_water (parse_water_from_sector data n) = false →
  material_path (parse_water_from_sector data n) = None.
Proof.
  unfold parse_water_from_sector.
  destruct (_ <? _)%nat; [done|].
  destruct (struct_unpack_f _) as [h|]; [|done].
  destruct (float_ne h float_zero); [|done].
  by destruct (negb _).
Qed.

Lemma material_path_needs_water_witness :
  find_first_pattern water_patterns dry_buffer_with_material = 180
  ∧ material_path (parse_water_from_sector dry_buffer_with_material 7) = None.
Proof.
  split; [reflexivity|].
  apply material_path_needs_water. reflexivity.
Defined.

(** ** Properties of the ordering policy resolver *)

Section ordering.
Implicit Types (r c i : Z).

Lemma radix_inj (n a b a' b' : Z) :
  0 ≤ b < n → 0 ≤ b' < n → a * n + b = a' * n + b' → a = a' ∧ b = b'.
Proof.
  intros Hb Hb' Heq.
  assert (a = a') as ->; [|lia].
  destruct (Z.lt_trichotomy a a') as [Hlt|[->|Hlt]]; [nia|done|nia].
Qed.

Lemma involution_id n : involution_on n (λ i, i).
Proof. intros i Hi. lia. Qed.

Lemma involution_flip n : involution_on n (λ i, n - 1 - i).
Proof. intros i Hi. lia. Qed.

(** Row-major numbering, rows and columns possibly counted backwards. *)
Lemma row_major_bijection (ρ κ : Z → Z) (sx sy : Z) :
  0 ≤ sx → 0 ≤ sy →
  involution_on sy ρ → involution_on sx κ →
  grid_bijection (λ r c, ρ r * sx + κ c) sx sy.
Proof.
  intros Hx Hy Hρ Hκ. repeat split.
  - destruct (Hρ r) as [? _], (Hκ c) as [? _]; [lia..|]. nia.
  - destruct (Hρ r) as [? _], (Hκ c) as [? _]; [lia..|]. nia.
  - destruct (Hρ r) as [? Hr], (Hκ c) as [? Hc]; [lia..|].
    destruct (Hρ r') as [? Hr'], (Hκ c') as [? Hc']; [lia..|].
    apply radix_inj in H3 as [E1 E2]; [|lia..]. congruence.
  - destruct (Hρ r) as [? Hr], (Hκ c) as [? Hc]; [lia..|].
    destruct (Hρ r') as [? Hr'], (Hκ c') as [? Hc']; [lia..|].
    apply radix_inj in H3 as [E1 E2]; [|lia..]. congruence.
  - intros i Hi.
    assert (0 < sx) as Hsx by nia.
    pose proof (Z.div_mod i sx ltac:(lia)) as Hdm.
    pose proof (Z.mod_pos_bound i sx Hsx) as Hm.
    assert (0 ≤ i / sx < sy) as Hd.
    { split; [apply Z.div_pos; lia|apply Z.div_lt_upper_bound; lia]. }
    destruct (Hρ (i / sx) Hd) as [? Hr], (Hκ (i mod sx) Hm) as [? Hc].
    exists (ρ (i / sx)), (κ (i mod sx)). rewrite Hr, Hc. lia.
Qed.

(** Column-major numbering. *)
Lemma column_major_bijection (ρ κ : Z → Z) (sx sy : Z) :
  0 ≤ sx → 0 ≤ sy →
  involution_on sy ρ → involution_on sx κ →
  grid_bijection (λ r c, κ c * sy + ρ r) sx sy.
Proof.
  intros Hx Hy Hρ Hκ.
  destruct (row_major_bijection κ ρ sy sx Hy Hx Hκ Hρ)
    as (Hrange & Hinj & Hsur).
  repeat split.
  - apply (Hrange c r); lia.
  - rewrite (Z.mul_comm sx sy). apply (Hrange c r); lia.
  - apply (Hinj c r c' r'); lia.
  - apply (Hinj c r c' r'); lia.
  - intros i Hi. destruct (Hsur i) as (c & r & ? & ? & ?); [lia|].
    exists r, c. done.
Qed.

Lemma bit_cases (w : Z) : 0 ≤ w < 2 → w = 0 ∨ w = 1.
Proof. lia. Qed.

(** A numbering of the blocks combined with a numbering of the slots. *)
Lemma block_bijection (blk off : Z → Z → Z) (sx sy : Z) :
  sx mod 2 = 0 → sy mod 2 = 0 →
  grid_bijection blk (sx / 2) (sy / 2) → slot_bijection off →
  grid_bijection
    (λ r c, blk (r / 2) (c / 2) * 4 + off (r mod 2) (c mod 2)) sx sy.
Proof.
  intros Hsx Hsy (Brange & Binj & Bsur) (Orange & Oinj & Osur).
  assert (∀ r, 0 ≤ r < sy → 0 ≤ r / 2 < sy / 2 ∧ 0 ≤ r mod 2 < 2) as Hrow.
  { intros r Hr. Z.to_euclidean_division_equations. lia. }
  assert (∀ c, 0 ≤ c < sx → 0 ≤ c / 2 < sx / 2 ∧ 0 ≤ c mod 2 < 2) as Hcol.
  { intros c Hc. Z.to_euclidean_division_equations. lia. }
  assert (sx * sy = (sx / 2) * (sy / 2) * 4) as Hsize.
  { Z.to_euclidean_division_equations. nia. }
  split; [|split].
  - intros r c Hr Hc.
    destruct (Hrow r Hr) as [Hr1 Hr2], (Hcol c Hc) as [Hc1 Hc2].
    pose proof (Brange _ _ Hr1 Hc1). pose proof (Orange _ _ Hr2 Hc2).
    rewrite Hsize. nia.
  - intros r c r' c' Hr Hc Hr' Hc' Heq.
    destruct (Hrow r Hr) as [Hr1 Hr2], (Hcol c Hc) as [Hc1 Hc2].
    destruct (Hrow r' Hr') as [Hr1' Hr2'], (Hcol c' Hc') as [Hc1' Hc2'].
    apply radix_inj in Heq as [Eb Eo];
      [|apply (Orange _ _ Hr2 Hc2)|apply (Orange _ _ Hr2' Hc2')].
    apply Binj in Eb as [Eb1 Eb2]; [|done..].
    apply Oinj in Eo as [Eo1 Eo2]; [|done..].
    pose proof (Z.div_mod r 2 ltac:(lia)). pose proof (Z.div_mod r' 2 ltac:(lia)).
    pose proof (Z.div_mod c 2 ltac:(lia)). pose proof (Z.div_mod c' 2 ltac:(lia)).
    lia.
  - intros i Hi.
    assert (0 ≤ i / 4 < sx / 2 * (sy / 2) ∧ 0 ≤ i mod 4 < 2 * 2) as [Hq Hm].
    { Z.to_euclidean_division_equations. lia. }
    destruct (Bsur _ Hq) as (br & bc & Hbr & Hbc & Hblk).
    destruct (Osur _ Hm) as (wr & wc & Hwr & Hwc & Hoff).
    exists (2 * br + wr), (2 * bc + wc).
    assert ((2 * br + wr) / 2 = br ∧ (2 * br + wr) mod 2 = wr) as [-> ->].
    { Z.to_euclidean_division_equations. lia. }
    assert ((2 * bc + wc) / 2 = bc ∧ (2 * bc + wc) mod 2 = wc) as [-> ->].
    { Z.to_euclidean_division_equations. lia. }
    rewrite Hblk, Hoff.
    split; [|split]; [Z.to_euclidean_division_equations; lia ..].
Qed.

(** The three slot numberings of the game layouts. *)
Lemma slot_swap_1_2 : slot_bijection offset_swap_1_2.
Proof.
  unfold offset_swap_1_2. repeat split.
  - destruct (bit_cases r) as [-> | ->], (bit_cases c) as [-> | ->]; cbn; lia.
  - destruct (bit_cases r) as [-> | ->], (bit_cases c) as [-> | ->]; cbn; lia.
  - destruct (bit_cases r) as [-> | ->], (bit_cases c) as [-> | ->],
      (bit_cases r') as [-> | ->], (bit_cases c') as [-> | ->];
      cbn in *; lia.
  - destruct (bit_cases r) as [-> | ->], (bit_cases c) as [-> | ->],
      (bit_cases r') as [-> | ->], (bit_cases c') as [-> | ->];
      cbn in *; lia.
  - intros i Hi.
    assert (i = 0 ∨ i = 1 ∨ i = 2 ∨ i = 3) as [-> | [-> | [-> | ->]]] by lia.
    + exists 0, 0. cbn. lia.
    + exists 1, 0. cbn. lia.
    + exists 0, 1. cbn. lia.
    + exists 1, 1. cbn. lia.
Qed.

Lemma slot_no_swap : slot_bijection offset_no_swap.
Proof.
  unfold offset_no_swap. repeat split.
  - destruct (bit_cases r) as [-> | ->], (bit_cases c) as [-> | ->]; cbn; lia.
  - destruct (bit_cases r) as [-> | ->], (bit_cases c) as [-> | ->]; cbn; lia.
  - destruct (bit_cases r) as [-> | ->], (bit_cases c) as [-> | ->],
      (bit_cases r') as [-> | ->], (bit_cases c') as [-> | ->];
      cbn in *; lia.
  - destruct (bit_cases r) as [-> | ->], (bit_cases c) as [-> | ->],
      (bit_cases r') as [-> | ->], (bit_cases c') as [-> | ->];
      cbn in *; lia.
  - intros i Hi.
    assert (i = 0 ∨ i = 1 ∨ i = 2 ∨ i = 3) as [-> | [-> | [-> | ->]]] by lia.
    + exists 0, 0. cbn. lia.
    + exists 0, 1. cbn. lia.
    + exists 1, 0. cbn. lia.
    + exists 1, 1. cbn. lia.
Qed.

Lemma slot_swap_0_3 : slot_bijection offset_swap_0_3.
Proof.
  unfold offset_swap_0_3. repeat split.
  - destruct (bit_cases r) as [-> | ->], (bit_cases c) as [-> | ->]; cbn; lia.
  - destruct (bit_cases r) as [-> | ->], (bit_cases c) as [-> | ->]; cbn; lia.
  - destruct (bit_cases r) as [-> | ->], (bit_cases c) as [-> | ->],
      (bit_cases r') as [-> | ->], (bit_cases c') as [-> | ->];
      cbn in *; lia.
  - destruct (bit_cases r) as [-> | ->], (bit_cases c) as [-> | ->],
      (bit_cases r') as [-> | ->], (bit_cases c') as [-> | ->];
      cbn in *; lia.
  - intros i Hi.
    assert (i = 0 ∨ i = 1 ∨ i = 2 ∨ i = 3) as [-> | [-> | [-> | ->]]] by lia.
    + exists 1, 1. cbn. lia.
    + exists 0, 1. cbn. lia.
    + exists 1, 0. cbn. lia.
    + exists 0, 0. cbn. lia.
Qed.

End ordering.

(** C3 (as the code has it). For every pattern string, named or not, the
    resolver is a bijection from the cells of the grid onto the indices
    below [sectors_x * sectors_y], provided that for the four 2 x 2 block
    layouts both grid dimensions are even. *)
Theorem resolver_bijection (pattern : string) (sx sy : Z) :
  1 ≤ sx → 1 ≤ sy →
  (pattern ∈ block_patterns → sx mod 2 = 0 ∧ sy mod 2 = 0) →
  grid_bijection
    (λ r c, get_sector_index_from_position pattern r c sx sy) sx sy.
Proof.
  intros Hx Hy Heven. unfold get_sector_index_from_position.
  assert (0 ≤ sx / 2 ∧ 0 ≤ sy / 2) as [Hx2 Hy2].
  { split; apply Z.div_pos; lia. }
  destruct (String.eqb_spec pattern avatar_vertical) as [->|_].
  { destruct Heven as [Ex Ey]; [set_solver|].
    refine (block_bijection (λ br bc, bc * (sy / 2) + br) offset_swap_1_2 sx sy Ex Ey _ slot_swap_1_2).
    by apply (column_major_bijection (λ i, i) (λ i, i));
      [| |apply involution_id..]. }
  destruct (String.eqb_spec pattern avatar_horizontal) as [->|_].
  { destruct Heven as [Ex Ey]; [set_solver|].
    refine (block_bijection (λ br bc, br * (sx / 2) + bc) offset_swap_1_2 sx sy Ex Ey _ slot_swap_1_2).
    by apply (row_major_bijection (λ i, i) (λ i, i));
      [| |apply involution_id..]. }
  destruct (String.eqb_spec pattern avatar_no_swap) as [->|_].
  { destruct Heven as [Ex Ey]; [set_solver|].
    refine (block_bijection (λ br bc, bc * (sy / 2) + br) offset_no_swap sx sy Ex Ey _ slot_no_swap).
    by apply (column_major_bijection (λ i, i) (λ i, i));
      [| |apply involution_id..]. }
  destruct (String.eqb_spec pattern avatar_swap_0_3) as [->|_].
  { destruct Heven as [Ex Ey]; [set_solver|].
    refine (block_bijection (λ br bc, bc * (sy / 2) + br) offset_swap_0_3 sx sy Ex Ey _ slot_swap_0_3).
    by apply (column_major_bijection (λ i, i) (λ i, i));
      [| |apply involution_id..]. }
  destruct (String.eqb pattern "Bottom-Left Sequential").
  { apply (row_major_bijection (λ r, sy - 1 - r) (λ c, c) sx sy); [lia..| |].
    - apply involution_flip. - apply involution_id. }
  destruct (String.eqb pattern "Top-Left Sequential").
  { apply (row_major_bijection (λ r, r) (λ c, c) sx sy); [lia..| |];
      apply involution_id. }
  destruct (String.eqb pattern "Bottom-Right Sequential").
  { apply (row_major_bijection (λ r, sy - 1 - r) (λ c, sx - 1 - c) sx sy);
      [lia..| |]; apply involution_flip. }
  destruct (String.eqb pattern "Top-Right Sequential").
  { apply (row_major_bijection (λ r, r) (λ c, sx - 1 - c) sx sy); [lia..| |].
    - apply involution_id. - apply involution_flip. }
  destruct (String.eqb pattern "Bottom-Left by Column").
  { apply (column_major_bijection (λ r, sy - 1 - r) (λ c, c) sx sy); [lia..| |].
    - apply involution_flip. - apply involution_id. }
  destruct (String.eqb pattern "Top-Left by Column").
  { apply (column_major_bijection (λ r, r) (λ c, c) sx sy); [lia..| |];
      apply involution_id. }
  apply (row_major_bijection (λ r, sy - 1 - r) (λ c, c) sx sy); [lia..| |].
  - apply involution_flip. - apply involution_id.
Qed.

Lemma resolver_bijection_witness :
  grid_bijection
    (λ r c, get_sector_index_from_position avatar_vertical r c 4 2) 4 2
  ∧ grid_bijection
      (λ r c, get_sector_index_from_position "Bottom-Right Sequential" r c 3 5)
      3 5.
Proof.
  split.
  - apply (resolver_bijection avatar_vertical 4 2); [lia|lia|].
    intros _. split; reflexivity.
  - apply (resolver_bijection "Bottom-Right Sequential" 3 5); [lia|lia|].
    intros Hin. exfalso. revert Hin. unfold block_patterns.
    rewrite !elem_of_cons, elem_of_nil.
    intros [H|[H|[H|[H|[]]]]]; discriminate H.
Defined.

(** C3 as stated fails: on a 2 x 1 grid the vertical block layout sends
    cell (0, 1) to index 2, outside [0, 2). *)
Lemma resolver_not_bijection_odd :
  avatar_vertical ∈ named_patterns ∧ 1 ≤ 2 ∧ 1 ≤ 1
  ∧ get_sector_index_from_position avatar_vertical 0 1 2 1 = 2
  ∧ ¬ grid_bijection
        (λ r c, get_sector_index_from_position avatar_vertical r c 2 1) 2 1.
Proof.
  split; [unfold named_patterns, block_patterns; set_solver|].
  split; [lia|]. split; [lia|]. split; [reflexivity|].
  intros (Hrange & _). specialize (Hrange 0 1 ltac:(lia) ltac:(lia)).
  vm_compute in Hrange. destruct Hrange as [_ Hlt]. discriminate Hlt.
Qed.

(** ** Loops, slices and shapes *)

Section loops.
Context {A S : Type}.
Implicit Types (l : list A) (body : A → S → result S) (s : S).

(** A loop whose body keeps an invariant and never raises, returns. *)
Lemma for_each_returns (I : S → Prop) l body s :
  I s →
  (∀ a s, a ∈ l → I s → ∃ s', body a s = Returns s' ∧ I s') →
  ∃ s', for_each l body s = Returns s' ∧ I s'.
Proof.
  revert s. induction l as [|a l IH]; intros s Hs Hbody; [by exists s|].
  destruct (Hbody a s) as (s1 & Hs1 & HI1); [left|done|].
  cbn [for_each]. rewrite Hs1. cbn.
  apply IH; [done|]. intros a' s' Ha'. apply Hbody. by right.
Qed.

End loops.

Lemma elem_of_grid_cells (sx sy r c : Z) :
  (r, c) ∈ grid_cells sx sy ↔ 0 ≤ r < sy ∧ 0 ≤ c < sx.
Proof.
  unfold grid_cells. rewrite list_elem_of_bind. split.
  - intros (r' & Hin & Hr'). apply elem_of_seqZ in Hr'.
    apply list_elem_of_bind in Hin as (c' & Hin & Hc').
    apply elem_of_seqZ in Hc'. apply list_elem_of_singleton in Hin.
    injection Hin as -> ->. lia.
  - intros [Hr Hc]. exists r. split; [|apply elem_of_seqZ; lia].
    apply list_elem_of_bind. exists c. split; [|apply elem_of_seqZ; lia].
    by apply list_elem_of_singleton.
Qed.


Lemma slice_index_in (i : Z) (len : nat) :
  0 ≤ i ≤ Z.of_nat len → slice_index i len = Z.to_nat i.
Proof.
  intros Hi. unfold slice_index.
  destruct (Z.ltb_spec i 0); [lia|]. f_equal. lia.
Qed.

Lemma py_slice_in {A} (i j : Z) (l : list A) :
  0 ≤ i ≤ j → j ≤ Z.of_nat (length l) →
  py_slice i j l = take (Z.to_nat (j - i)) (drop (Z.to_nat i) l).
Proof.
  intros Hi Hj. unfold py_slice.
  rewrite !slice_index_in by lia. f_equal. lia.
Qed.

Lemma length_py_slice_in {A} (i j : Z) (l : list A) :
  0 ≤ i ≤ j → j ≤ Z.of_nat (length l) →
  length (py_slice i j l) = Z.to_nat (j - i).
Proof.
  intros Hi Hj. rewrite py_slice_in, length_take, length_drop by done. lia.
Qed.

Lemma py_slice_all {A} (n : nat) (l : list A) :
  length l = n → py_slice 0 (Z.of_nat n) l = l.
Proof.
  intros Hn. rewrite py_slice_in by lia.
  rewrite drop_0, take_ge; [done|lia].
Qed.

Lemma length_set_slice_in {A} (i j : Z) (new l : list A) :
  0 ≤ i ≤ j → j ≤ Z.of_nat (length l) →
  length new = Z.to_nat (j - i) →
  length (set_slice i j new l) = length l.
Proof.
  intros Hi Hj Hnew. unfold set_slice.
  rewrite !slice_index_in by lia.
  rewrite !length_app, length_take, length_drop. lia.
Qed.

Lemma has_shape_replicate {A} (h w : nat) (x : A) :
  has_shape h w (replicate h (replicate w x)).
Proof.
  split; [apply length_replicate|].
  apply Forall_replicate, length_replicate.
Qed.

Lemma has_shape_reverse {A} (h w : nat) (a : array2 A) :
  has_shape h w a → has_shape h w (reverse a).
Proof.
  intros [Hh Hw]. split; [by rewrite length_reverse|].
  by apply Forall_reverse.
Qed.

Lemma has_shape_slice2 {A} (h w : nat) (y0 y1 x0 x1 : Z) (a : array2 A) :
  has_shape h w a →
  0 ≤ y0 ≤ y1 → y1 ≤ Z.of_nat h → 0 ≤ x0 ≤ x1 → x1 ≤ Z.of_nat w →
  has_shape (Z.to_nat (y1 - y0)) (Z.to_nat (x1 - x0)) (slice2 y0 y1 x0 x1 a).
Proof.
  intros [Hh Hw] Hy0 Hy1 Hx0 Hx1. unfold slice2. split.
  - rewrite length_fmap, length_py_slice_in; [done..|lia].
  - apply Forall_fmap. rewrite py_slice_in by lia.
    apply Forall_take, Forall_drop.
    eapply Forall_impl; [exact Hw|]. intros row Hrow. cbn beta in Hrow |- *.
    apply length_py_slice_in; [done|lia].
Qed.

Lemma slice2_all {A} (n m : nat) (a : array2 A) :
  has_shape n m a → slice2 0 (Z.of_nat n) 0 (Z.of_nat m) a = a.
Proof.
  intros [Hh Hw]. unfold slice2. rewrite py_slice_all by done.
  rewrite <- (list_fmap_id a) at 2.
  apply Forall_fmap_ext. eapply Forall_impl; [exact Hw|].
  intros row Hrow. by apply py_slice_all.
Qed.

Lemma has_shape_set_slice2 {A} (h w : nat) (y0 y1 x0 x1 : Z)
    (new a : array2 A) :
  has_shape h w a →
  has_shape (Z.to_nat (y1 - y0)) (Z.to_nat (x1 - x0)) new →
  0 ≤ y0 ≤ y1 → y1 ≤ Z.of_nat h → 0 ≤ x0 ≤ x1 → x1 ≤ Z.of_nat w →
  has_shape h w (set_slice2 y0 y1 x0 x1 new a).
Proof.
  intros [Hh Hw] [Hnh Hnw] Hy0 Hy1 Hx0 Hx1. unfold set_slice2.
  rewrite !slice_index_in by lia. split.
  - rewrite !length_app, length_zip_with, !length_take, !length_drop. lia.
  - apply Forall_app. split; [by apply Forall_take|].
    apply Forall_app. split; [|by apply Forall_drop].
    apply Forall_zip_with_fst
      with (P := λ new_row, length new_row = Z.to_nat (x1 - x0)); [done|].
    apply Forall_take, Forall_drop.
    eapply Forall_impl; [exact Hw|]. intros row Hrow new_row Hnew.
    cbn beta in Hrow, Hnew |- *.
    rewrite length_set_slice_in; [done..|lia|done].
Qed.


Lemma has_shape_lengths {A} (h w : nat) (a : array2 A) :
  has_shape h w a → length <$> a = replicate h w.
Proof.
  intros [<- Hw]. induction Hw as [|row a Hrow _ IH]; [done|].
  cbn. by rewrite Hrow, IH.
Qed.

Lemma same_shape_true {A B} (h w : nat) (a : array2 A) (b : array2 B) :
  has_shape h w a → has_shape h w b → same_shape a b = true.
Proof.
  intros Ha Hb. unfold same_shape. apply bool_decide_eq_true.
  by rewrite (has_shape_lengths h w a), (has_shape_lengths h w b).
Qed.

Lemma has_shape_zip_with {A B C} (f : A → B → C) (h w : nat)
    (a : array2 A) (b : array2 B) :
  has_shape h w a → has_shape h w b →
  has_shape h w (zip_with (zip_with f) a b).
Proof.
  intros [Hah Haw] [Hbh Hbw]. split.
  - rewrite length_zip_with. lia.
  - apply Forall_zip_with_fst with (P := λ row, length row = w); [done|].
    eapply Forall_impl; [exact Hbw|]. intros rb Hrb ra Hra.
    cbn beta in Hrb, Hra |- *. rewrite length_zip_with. lia.
Qed.

Lemma has_shape_fmap {A B} (f : A → B) (h w : nat) (a : array2 A) :
  has_shape h w a → has_shape h w ((λ row : list A, f <$> row) <$> a).
Proof.
  intros [Hh Hw]. split; [by rewrite length_fmap|].
  apply Forall_fmap. eapply Forall_impl; [exact Hw|].
  intros row Hrow. cbn. by rewrite length_fmap.
Qed.

Lemma np_zeros_returns {A} (zero : A) (h w : Z) :
  0 ≤ h → 0 ≤ w →
  np_zeros zero h w
  = Returns (replicate (Z.to_nat h) (replicate (Z.to_nat w) zero)).
Proof.
  intros Hh Hw. unfold np_zeros.
  destruct (Z.ltb_spec h 0); [lia|]. destruct (Z.ltb_spec w 0); [lia|done].
Qed.

Lemma np_mul2_returns {A B C} (f : A → B → C) (h w : nat)
    (a : array2 A) (b : array2 B) :
  has_shape h w a → has_shape h w b →
  np_mul2 f a b = Returns (zip_with (zip_with f) a b).
Proof.
  intros Ha Hb. unfold np_mul2. by rewrite (same_shape_true h w).
Qed.

(** An in-place update of a region inside the array succeeds and keeps the
    shape of the array. *)
Lemma slice2_update_returns {A B} (f : A → B → A) (h w : nat)
    (y0 y1 x0 x1 : Z) (rhs : array2 B) (a : array2 A) :
  has_shape h w a →
  has_shape (Z.to_nat (y1 - y0)) (Z.to_nat (x1 - x0)) rhs →
  0 ≤ y0 ≤ y1 → y1 ≤ Z.of_nat h → 0 ≤ x0 ≤ x1 → x1 ≤ Z.of_nat w →
  ∃ a', slice2_update f y0 y1 x0 x1 rhs a = Returns a' ∧ has_shape h w a'.
Proof.
  intros Ha Hrhs Hy0 Hy1 Hx0 Hx1. unfold slice2_update.
  pose proof (has_shape_slice2 h w y0 y1 x0 x1 a Ha Hy0 Hy1 Hx0 Hx1) as Hl.
  rewrite (same_shape_true _ _ _ _ Hl Hrhs).
  eexists. split; [done|].
  apply has_shape_set_slice2; [done| |done..].
  by apply has_shape_zip_with.
Qed.

(** ** The weight mask of a sector *)

Lemma np_index_in (i : Z) (n : nat) :
  0 ≤ i < Z.of_nat n → np_index i n = Returns (Z.to_nat i).
Proof.
  intros Hi. unfold np_index.
  destruct (Z.leb_spec 0 i); [|lia]. destruct (Z.ltb_spec i (Z.of_nat n)); [done|lia].
Qed.

Lemma np_index_from_end (i : Z) (n : nat) :
  - Z.of_nat n ≤ i < 0 → np_index i n = Returns (Z.to_nat (i + Z.of_nat n)).
Proof.
  intros Hi. unfold np_index.
  destruct (Z.leb_spec 0 i); [lia|]. cbn [andb].
  destruct (Z.ltb_spec i 0); [|lia].
  destruct (Z.leb_spec (- Z.of_nat n) i); [done|lia].
Qed.

Lemma has_shape_scale_column (h w j : nat) (x : Qc) (a : array2 Qc) :
  has_shape h w a → has_shape h w (scale_column j x a).
Proof.
  intros [Hh Hw]. unfold scale_column. split; [by rewrite length_fmap|].
  apply Forall_fmap. eapply Forall_impl; [exact Hw|].
  intros row Hrow. cbn. by rewrite length_alter.
Qed.

Lemma has_shape_scale_row (h w i : nat) (x : Qc) (a : array2 Qc) :
  has_shape h w a → has_shape h w (scale_row i x a).
Proof.
  intros [Hh Hw]. unfold scale_row. split; [by rewrite length_alter|].
  apply Forall_alter; [done|]. intros row _ Hrow. by rewrite length_fmap.
Qed.

Lemma feather_step_returns (blend_mode : string) (overlap e : Z)
    (m : array2 Qc) :
  0 ≤ e < Z.of_nat grid_size → has_shape grid_size grid_size m →
  ∃ m', feather_step blend_mode overlap e m = Returns m'
        ∧ has_shape grid_size grid_size m'.
Proof.
  intros He Hm. unfold feather_step.
  rewrite (np_index_in e), (np_index_from_end (- (e + 1))) by lia.
  cbn [mbind result_bind mret result_ret].
  eexists. split; [done|].
  by apply has_shape_scale_row, has_shape_scale_row,
    has_shape_scale_column, has_shape_scale_column.
Qed.

Lemma sector_weight_mask_returns (blend_mode : string) (overlap : Z) :
  overlap ≤ Z.of_nat grid_size →
  ∃ m, sector_weight_mask blend_mode overlap = Returns m
       ∧ has_shape grid_size grid_size m.
Proof.
  intros Ho. unfold sector_weight_mask.
  apply (for_each_returns (has_shape grid_size grid_size)).
  - apply has_shape_replicate.
  - intros e m He Hm. apply elem_of_seqZ in He.
    apply feather_step_returns; [lia|done].
Qed.

(** ** Relations between arrays that are updated in step *)








(** ** Properties of the seam blender *)

Section seam_shapes.
Context {P Acc Out : Type} (ops : pixel_ops P Acc Out).
Context (is_texture : bool) (overlap : Z) (blend_mode current_pattern : string).
Context (sectors_dict : gmap Z (array2 P)) (sx sy : Z).
Hypothesis overlap_range : 1 ≤ overlap ≤ Z.of_nat grid_size.
Hypothesis sectors_shaped : well_shaped sectors_dict.

Let eff : Z := Z.of_nat grid_size - overlap.
Let total_width : Z := sx * eff + overlap.
Let total_height : Z := sy * eff + overlap.

Let shaped : array2 Acc * array2 Qc → Prop :=
  accumulators_shaped (Z.to_nat total_height) (Z.to_nat total_width).

Lemma seam_place_returns (r c : Z) (state : array2 Acc * array2 Qc) :
  0 ≤ r < sy → 0 ≤ c < sx → shaped state →
  ∃ state',
    seam_place ops is_texture overlap blend_mode current_pattern sectors_dict
      sx sy total_width total_height eff (r, c) state = Returns state'
    ∧ shaped state'.
Proof.
  intros Hr Hc [Hcomb Hwts]. destruct state as [combined weights].
  cbn [fst snd] in Hcomb, Hwts. unfold seam_place.
  destruct (sectors_dict !! _) as [d|] eqn:Hd; [|by eexists].
  apply sectors_shaped in Hd.
  destruct (sector_weight_mask_returns blend_mode overlap) as (m & -> & Hm);
    [lia|].
  cbn [mbind result_bind].
  assert (r * eff + Z.of_nat grid_size ≤ total_height) as Hy.
  { subst total_height eff. nia. }
  assert (c * eff + Z.of_nat grid_size ≤ total_width) as Hx.
  { subst total_width eff. nia. }
  rewrite !Z.min_l by done.
  replace (r * eff + Z.of_nat grid_size - r * eff)
    with (Z.of_nat grid_size) by lia.
  replace (c * eff + Z.of_nat grid_size - c * eff)
    with (Z.of_nat grid_size) by lia.
  assert (has_shape grid_size grid_size
            (if is_texture && negb (String.eqb current_pattern avatar_vertical)
             then np_flipud d else d)) as Hd'.
  { destruct (_ && _); [by apply has_shape_reverse|done]. }
  rewrite (slice2_all _ _ m Hm), (slice2_all _ _ _ Hd').
  rewrite (np_mul2_returns _ grid_size grid_size) by done.
  cbn [mbind result_bind].
  assert (0 ≤ eff) as Heff by (subst eff; lia).
  assert (0 ≤ r * eff ∧ 0 ≤ c * eff) as [Hr0 Hc0] by nia.
  destruct (slice2_update_returns (px_add ops)
              (Z.to_nat total_height) (Z.to_nat total_width)
              (r * eff) (r * eff + Z.of_nat grid_size)
              (c * eff) (c * eff + Z.of_nat grid_size)
              (zip_with (zip_with (px_weighted ops))
                 (if is_texture
                     && negb (String.eqb current_pattern avatar_vertical)
                  then np_flipud d else d) m)
              combined) as (combined' & -> & Hcomb'); [done| |lia..|].
  { replace (Z.to_nat (r * eff + Z.of_nat grid_size - r * eff))
      with grid_size by lia.
    replace (Z.to_nat (c * eff + Z.of_nat grid_size - c * eff))
      with grid_size by lia.
    by apply has_shape_zip_with. }
  cbn [mbind result_bind].
  destruct (slice2_update_returns Qcplus
              (Z.to_nat total_height) (Z.to_nat total_width)
              (r * eff) (r * eff + Z.of_nat grid_size)
              (c * eff) (c * eff + Z.of_nat grid_size) m weights)
    as (weights' & -> & Hwts'); [done| |lia..|].
  { replace (Z.to_nat (r * eff + Z.of_nat grid_size - r * eff))
      with grid_size by lia.
    replace (Z.to_nat (c * eff + Z.of_nat grid_size - c * eff))
      with grid_size by lia.
    done. }
  by eexists.
Qed.

Lemma seam_accumulate_returns :
  0 ≤ sx → 0 ≤ sy →
  ∃ state,
    seam_accumulate ops is_texture overlap blend_mode current_pattern
      sectors_dict sx sy = Returns state
    ∧ shaped state.
Proof.
  intros Hsx Hsy. unfold seam_accumulate. fold eff total_width total_height.
  assert (0 ≤ eff) as Heff by (subst eff; lia).
  assert (0 ≤ total_width ∧ 0 ≤ total_height) as [Hw Hh].
  { subst total_width total_height. nia. }
  rewrite !np_zeros_returns by done. cbn [mbind result_bind].
  apply (for_each_returns shaped).
  - split; apply has_shape_replicate.
  - intros [r c] state Hcell Hstate.
    apply elem_of_grid_cells in Hcell as [Hr Hc].
    by apply seam_place_returns.
Qed.

End seam_shapes.

(** C7 (as the code has it). For an overlap between 1 and 65 and sectors of
    65 x 65 samples, the seam blender returns a buffer of
    [sectors_y * (65 - overlap) + overlap] rows of
    [sectors_x * (65 - overlap) + overlap] pixels, for heights and for
    textures alike. *)
Theorem seam_blending_output_size {P Acc Out} (ops : pixel_ops P Acc Out)
    (is_texture : bool) (overlap : Z) (blend_mode current_pattern : string)
    (sectors_dict : gmap Z (array2 P)) (sx sy : Z) :
  1 ≤ overlap ≤ 65 → 0 ≤ sx → 0 ≤ sy → well_shaped sectors_dict →
  ∃ out,
    apply_seam_blending ops is_texture overlap blend_mode current_pattern
      sectors_dict sx sy = Returns (Some out)
    ∧ has_shape (Z.to_nat (sy * (65 - overlap) + overlap))
        (Z.to_nat (sx * (65 - overlap) + overlap)) out.
Proof.
  intros Ho Hsx Hsy Hdict. unfold apply_seam_blending.
  destruct (Z.ltb_spec overlap 1); [lia|].
  destruct (seam_accumulate_returns ops is_texture overlap blend_mode
              current_pattern sectors_dict sx sy)
    as ([combined weights] & -> & Hc & Hw); [done..|].
  cbn [fst snd] in Hc, Hw. eexists. split; [done|].
  apply has_shape_zip_with; [done|]. by apply has_shape_fmap.
Qed.

(** ** Blending uniform sectors *)










Lemma all_uniform_well_shaped {A} (v : A) (sectors_dict : gmap Z (array2 A)) :
  all_uniform v sectors_dict → well_shaped sectors_dict.
Proof.
  intros Hu k d Hd. rewrite (Hu k d Hd). apply has_shape_replicate.
Qed.

Section uniform_blend.
Context (v : Qc) (overlap : Z) (blend_mode current_pattern : string).
Context (sectors_dict : gmap Z (array2 Qc)) (sx sy : Z).
Hypothesis overlap_claimed : overlap ∈ [1; 5; 10].
Hypothesis sectors_uniform : all_uniform v sectors_dict.





End uniform_blend.

Lemma uniform_collection_uniform {A} (n : nat) (v : A) :
  all_uniform v (uniform_collection n v).
Proof.
  intros k d Hd. unfold uniform_collection in Hd.
  apply elem_of_list_to_map_2, list_elem_of_fmap in Hd as (i & [= _ ->] & _).
  done.
Qed.

Lemma seam_blending_output_size_witness :
  ∃ out,
    apply_seam_blending height_ops false 5 "Gaussian" avatar_vertical
      (uniform_collection 2 (Qc_of_Z 3)) 2 1 = Returns (Some out)
    ∧ has_shape 65 125 out.
Proof.
  apply (seam_blending_output_size height_ops false 5 "Gaussian"
           avatar_vertical (uniform_collection 2 (Qc_of_Z 3)) 2 1);
    [lia|lia|lia|].
  apply (all_uniform_well_shaped (Qc_of_Z 3)), uniform_collection_uniform.
Defined.

(** C7 as stated fails for large overlaps: with an overlap of 100 and three
    columns the width [3 * (65 - 100) + 100] is negative and [np.zeros]
    raises. *)
Lemma seam_blending_large_overlap_raises :
  1 ≤ 100
  ∧ 3 * (65 - 100) + 100 = -5
  ∧ apply_seam_blending height_ops false 100 "Linear" "Bottom-Left Sequential"
      (uniform_collection 3 0%Qc) 3 1 = Raises ValueError.
Proof. split; [lia|]. split; [lia|]. vm_compute. reflexivity. Qed.




(** ** Properties of the compositor *)





(** C5 on the code. The standard path reports the sector that is absent
    from a 2 x 2 request; the seam blending path, given the same
    collection, reports none missing and shows the green status line. *)
Lemma missing_count_by_path :
  display_report (update_display (three_of_four false))
  = Some ([2; 0; 1], [3], InfoMissing 3 4 1)
  ∧ display_report (update_display (three_of_four true))
    = Some ([2; 1; 0], [], InfoComplete 3 4).
Proof. split; vm_compute; reflexivity. Qed.

(** ** Properties of the loader *)

Lemma load_file_failed (st : Loaded) (f : SectorFile) :
  load_single_sector (file_contents f) = None → load_file st f = st.
Proof.
  intros Hf. unfold load_file. rewrite Hf. by destruct (file_sector_num f).
Qed.

Lemma load_sectors_skip (before after : list SectorFile) (f : SectorFile) :
  load_single_sector (file_contents f) = None →
  load_sectors (before ++ f :: after) = load_sectors (before ++ after).
Proof.
  intros Hf. unfold load_sectors. rewrite !foldl_app. cbn [foldl].
  by rewrite load_file_failed.
Qed.

(** C6 (as the code has it). A sector file of at least 710 and fewer than
    708 + 16898 bytes fails to decode, and the load goes on as if the file
    were not there: the sectors, water records and counts of the other
    files are what they are without it. *)
Theorem truncated_sector_isolated (before after : list SectorFile)
    (f : SectorFile) :
  710 ≤ Z.of_nat (length (file_contents f)) < 708 + 16898 →
  load_single_sector (file_contents f) = None
  ∧ load_sectors (before ++ f :: after) = load_sectors (before ++ after).
Proof.
  intros Hlen. pose proof (load_single_sector_truncated _ Hlen) as Hf.
  split; [done|]. by apply load_sectors_skip.
Qed.

Lemma truncated_sector_isolated_witness :
  let good := mkSectorFile (Some 0) (replicate (Z.to_nat 17608) x01) in
  let bad := mkSectorFile (Some 1) (replicate 1000 x01) in
  load_single_sector (file_contents bad) = None
  ∧ load_sectors ([good] ++ bad :: [good]) = load_sectors ([good] ++ [good]).
Proof.
  intros good bad. apply (truncated_sector_isolated [good] [good] bad).
  cbn [file_contents bad]. rewrite length_replicate. lia.
Defined.

(** C6 as stated fails: a file that lacks only the last two bytes, which
    the decoder skips, has fewer than 708 + 4 * 65 * 65 bytes and still
    decodes to a full grid that enters the collection. *)
Lemma short_by_two_decodes :
  Z.of_nat (length short_by_two) < 708 + 4 * 65 * 65
  ∧ load_single_sector short_by_two = Some (uniform_sector 0%Qc)
  ∧ loaded_sectors_data (load_sectors [mkSectorFile (Some 0) short_by_two])
      !! 0 = Some (uniform_sector 0%Qc).
Proof.
  split; [unfold short_by_two; rewrite length_replicate; lia|].
  assert (load_single_sector short_by_two = Some (uniform_sector 0%Qc)) as H.
  { apply (bool_decide_unpack _). vm_compute. exact I. }
  split; [done|].
  unfold load_sectors, load_file. cbn [foldl file_sector_num file_contents].
  rewrite H. cbn [loaded_sectors_data]. apply lookup_insert_eq.
Qed.

(** * Part III: further properties of the code *)

(** ** The decoder by file length *)

Lemma stream_cell_payload (contents : list byte) (y x : nat) :
  (y < 65)%nat → (x < 65)%nat →
  stream_cell (drop (4 * grid_size * y)
                 (file_read_at 708 (Z.to_nat 16900) contents)) x
  = spec_cell contents y x.
Proof.
  intros Hy Hx. unfold stream_cell, spec_cell, file_read_at, grid_size.
  rewrite !lookup_total_drop, !lookup_total_take_lt, !lookup_total_drop by lia.
  do 2 f_equal; [|f_equal]; do 2 f_equal; lia.
Qed.

Lemma load_single_sector_short (contents : list byte) :
  Z.of_nat (length contents) < 710 →
  load_single_sector contents = Some (replicate 65 []).
Proof.
  intros Hshort. rewrite load_single_sector_rows.
  set (payload := file_read_at 708 (Z.to_nat 16900) contents).
  assert (length payload < 2)%nat as HL.
  { subst payload. rewrite payload_length. lia. }
  assert (((λ y, stream_row (drop (4 * grid_size * y) payload))
           <$> seq 0 grid_size) = replicate 65 []) as ->.
  { change (replicate 65 ([] : list Qc))
      with ((λ _ : nat, ([] : list Qc)) <$> seq 0 grid_size).
    apply list_fmap_ext. intros _ y _. unfold stream_row.
    pose proof (avail_lt (drop (4 * grid_size * y) payload) 1
                  ltac:(rewrite length_drop; lia)).
    by replace (grid_size `min` avail (drop (4 * grid_size * y) payload))%nat
      with 0%nat by lia. }
  reflexivity.
Qed.

Lemma load_single_sector_full (contents : list byte) :
  708 + 16898 ≤ Z.of_nat (length contents) →
  load_single_sector contents = Some (spec_grid contents).
Proof.
  intros Hfull. rewrite load_single_sector_rows.
  assert (((λ y, stream_row (drop (4 * grid_size * y)
              (file_read_at 708 (Z.to_nat 16900) contents)))
           <$> seq 0 grid_size) = spec_grid contents) as ->.
  { unfold spec_grid. apply list_fmap_ext. intros i y Hy.
    apply lookup_seq in Hy as [-> Hi]. unfold stream_row.
    rewrite Nat.min_l.
    - apply list_fmap_ext. intros j x Hx.
      apply lookup_seq in Hx as [-> Hj].
      by apply stream_cell_payload.
    - apply avail_ge. rewrite length_drop, payload_length.
      unfold grid_size in *. lia. }
  apply (np_array_uniform _ 65). unfold spec_grid.
  apply Forall_fmap, Forall_forall. intros y _. by cbn.
Qed.

(** X1. The decoder tells three kinds of files apart by their length alone.
    Below 710 bytes no height is present: every row is empty, [np.array]
    accepts the 65 empty rows and the result is a 65 x 0 array, not a
    failure.  From 710 bytes up to two bytes before the last height the rows
    are ragged and the decoder fails.  From 708 + 16898 bytes on the result
    is the full grid of the specification: the two bytes skipped after the
    last height need not exist. *)
Theorem load_single_sector_by_length (contents : list byte) :
  load_single_sector contents
  = if Z.of_nat (length contents) <? 710 then Some (replicate 65 [])
    else if Z.of_nat (length contents) <? 708 + 16898 then None
    else Some (spec_grid contents).
Proof.
  destruct (Z.ltb_spec (Z.of_nat (length contents)) 710) as [Hshort|Hlong];
    [by apply load_single_sector_short|].
  destruct (Z.ltb_spec (Z.of_nat (length contents)) (708 + 16898))
    as [Hcut|Hfull]; [|by apply load_single_sector_full].
  apply load_single_sector_truncated. lia.
Qed.

(** X2. The decoder reads the height bytes and nothing else: two files of at
    least 708 + 16898 bytes that agree on the two height bytes of each of
    the 4225 cells decode to the same grid, whatever their headers, their
    skipped bytes and their tails hold. *)
Theorem load_single_sector_reads_heights_only (c1 c2 : list byte) :
  708 + 16898 ≤ Z.of_nat (length c1) →
  708 + 16898 ≤ Z.of_nat (length c2) →
  (∀ i : nat, (i < 65 * 65)%nat →
     c1 !!! (708 + 4 * i)%nat = c2 !!! (708 + 4 * i)%nat
     ∧ c1 !!! S (708 + 4 * i)%nat = c2 !!! S (708 + 4 * i)%nat) →
  load_single_sector c1 = load_single_sector c2.
Proof.
  intros H1 H2 Hagree. rewrite !load_single_sector_full by done.
  f_equal. unfold spec_grid. apply list_fmap_ext. intros i y Hy.
  apply lookup_seq in Hy as [-> Hi]. apply list_fmap_ext. intros j x Hx.
  apply lookup_seq in Hx as [-> Hj]. unfold spec_cell.
  change (0 + i)%nat with i. change (0 + j)%nat with j. cbn zeta.
  destruct (Hagree (65 * i + j)%nat) as [-> ->]; [nia|done].
Qed.

Lemma load_single_sector_reads_heights_only_witness :
  let c1 := replicate (Z.to_nat 17606) x00 in
  let c2 := <[0%nat := xff]> (replicate (Z.to_nat 17700) x00) in
  load_single_sector c1 = load_single_sector c2.
Proof.
  intros c1 c2. apply (load_single_sector_reads_heights_only c1 c2).
  - subst c1. rewrite length_replicate. lia.
  - subst c2. rewrite length_insert, length_replicate. lia.
  - intros i Hi. subst c1 c2.
    rewrite !list_lookup_total_insert_ne by lia.
    split.
    + rewrite lookup_total_replicate_2 by lia.
      by rewrite lookup_total_replicate_2 by lia.
    + rewrite lookup_total_replicate_2 by lia.
      by rewrite lookup_total_replicate_2 by lia.
Defined.

(** ** More on the water record parser *)

(** X3. The water fields are read from the four bytes at 0xB0 and from nothing
    else: two buffers that agree there give the same water flag and the
    same height, whatever else they hold. *)
Theorem water_fields_from_four_bytes (d1 d2 : list byte) (n1 n2 : Z) :
  (180 ≤ length d1)%nat → (180 ≤ length d2)%nat →
  take 4 (drop 176 d1) = take 4 (drop 176 d2) →
  has_water (parse_water_from_sector d1 n1)
  = has_water (parse_water_from_sector d2 n2)
  ∧ water_height (parse_water_from_sector d1 n1)
    = water_height (parse_water_from_sector d2 n2).
Proof.
  intros H1 H2 Heq.
  destruct (struct_unpack_f_4 (d1 !!! 176%nat) (d1 !!! 177%nat)
              (d1 !!! 178%nat) (d1 !!! 179%nat)) as [h Hh].
  rewrite <- height_bytes_spec in Hh by lia.
  destruct (parse_water_fields d1 n1 h H1 Hh) as [-> ->].
  rewrite Heq in Hh.
  by destruct (parse_water_fields d2 n2 h H2 Hh) as [-> ->].
Qed.

Lemma water_fields_from_four_bytes_witness :
  let d1 := water_one_buffer in
  let d2 := replicate 176 xff ++ [x00; x00; x80; x3f] ++ replicate 50 x41 in
  has_water (parse_water_from_sector d1 1)
  = has_water (parse_water_from_sector d2 2)
  ∧ water_height (parse_water_from_sector d1 1)
    = water_height (parse_water_from_sector d2 2).
Proof.
  intros d1 d2. apply (water_fields_from_four_bytes d1 d2 1 2).
  - subst d1. unfold water_one_buffer.
    rewrite length_app, length_replicate. cbn [length]. lia.
  - subst d2. rewrite !length_app, !length_replicate. cbn [length]. lia.
  - reflexivity.
Defined.

Lemma is_prefix_spec (sub data : list byte) :
  is_prefix sub data = true ↔ sub `prefix_of` data.
Proof.
  revert data. induction sub as [|a sub IH]; intros data.
  - split; [intros _; apply prefix_nil|done].
  - destruct data as [|b data]; cbn.
    + split; [done|]. intros Hp. by apply prefix_nil_not in Hp.
    + rewrite andb_true_iff, IH. split.
      * intros [Hab Hp]. apply byte_dec_bl in Hab as ->. by apply prefix_cons.
      * intros Hp. split.
        -- apply byte_dec_lb. by apply prefix_cons_inv_1 in Hp.
        -- by apply prefix_cons_inv_2 in Hp.
Qed.

(** [find_from] returns [-1] when [sub] occurs nowhere, and otherwise the
    index of its first occurrence. *)
Lemma find_from_cases (sub data : list byte) (pos : nat) :
  (find_from sub data pos = -1
   ∧ ∀ j, (j ≤ length data)%nat → ¬ sub `prefix_of` drop j data)
  ∨ (∃ k, find_from sub data pos = Z.of_nat (pos + k)
          ∧ (k ≤ length data)%nat
          ∧ sub `prefix_of` drop k data
          ∧ ∀ j, (j < k)%nat → ¬ sub `prefix_of` drop j data).
Proof.
  revert pos. induction data as [|b data IH]; intros pos.
  - cbn [find_from]. destruct (is_prefix sub []) eqn:Hp.
    + right. exists 0%nat. rewrite Nat.add_0_r.
      repeat split; [done|by apply is_prefix_spec|lia].
    + left. split; [done|]. intros j Hj Hpre.
      rewrite drop_nil in Hpre. apply is_prefix_spec in Hpre. congruence.
  - cbn [find_from]. destruct (is_prefix sub (b :: data)) eqn:Hp.
    + right. exists 0%nat. rewrite Nat.add_0_r.
      repeat split; [cbn; lia|by apply is_prefix_spec|lia].
    + destruct (IH (S pos)) as [[Hnone Hall]|(k & Hk & Hlen & Hpre & Hmin)].
      * left. split; [done|]. intros [|j] Hj Hpre.
        -- cbn [drop] in Hpre. apply is_prefix_spec in Hpre. congruence.
        -- apply (Hall j); [cbn in Hj; lia|done].
      * right. exists (S k). repeat split.
        -- rewrite Hk. f_equal. lia.
        -- cbn. lia.
        -- done.
        -- intros [|j] Hj Hpre'.
           ++ cbn [drop] in Hpre'. apply is_prefix_spec in Hpre'. congruence.
           ++ apply (Hmin j); [lia|done].
Qed.

Lemma single_prefix_lookup (a : byte) (l : list byte) (j : nat) :
  [a] `prefix_of` drop j l ↔ l !! j = Some a.
Proof.
  split.
  - intros [k Hk]. rewrite <- (Nat.add_0_r j), <- lookup_drop, Hk. done.
  - intros Hj. rewrite (drop_S _ _ _ Hj). by exists (drop (S j) l).
Qed.

Lemma prefix_take_ge (sub l : list byte) (n : nat) :
  sub `prefix_of` l → (length sub ≤ n)%nat → sub `prefix_of` take n l.
Proof.
  intros [k ->] Hn. rewrite take_app_ge by done.
  by exists (take (n - length sub) k).
Qed.

(** The search for the NUL byte that ends the material path. *)
Lemma nul_search (l : list byte) (start : nat) :
  (find_from [x00] l start = -1 ∧ x00 ∉ l)
  ∨ (∃ k, find_from [x00] l start = Z.of_nat (start + k)
          ∧ (x00 ∉ take k l) ∧ l !! k = Some x00).
Proof.
  destruct (find_from_cases [x00] l start)
    as [[Hnone Hall]|(k & Hk & Hlen & Hpre & Hmin)].
  - left. split; [done|]. intros Hin.
    apply list_elem_of_lookup in Hin as [j Hj].
    apply (Hall j); [apply lookup_lt_Some in Hj; lia|].
    by apply single_prefix_lookup.
  - right. exists k. split; [done|]. split.
    + intros Hin. apply elem_of_take in Hin as (j & Hj & Hjk).
      apply (Hmin j Hjk). by apply single_prefix_lookup.
    + by apply single_prefix_lookup.
Qed.

Lemma find_first_pattern_cases (patterns : list (list byte)) (data : list byte) :
  find_first_pattern patterns data = -1
  ∨ ∃ pattern pos, pattern ∈ patterns
      ∧ find_first_pattern patterns data = Z.of_nat pos
      ∧ pattern `prefix_of` drop pos data.
Proof.
  induction patterns as [|pattern patterns IH]; [by left|].
  cbn [find_first_pattern]. unfold bytes_find. rewrite drop_0.
  destruct (find_from_cases pattern data 0)
    as [[-> _]|(k & -> & _ & Hpre & _)].
  - cbn. destruct IH as [->|(q & pos & Hq & -> & Hpre)]; [by left|].
    right. exists q, pos. split; [by right|done].
  - right. exists pattern, k.
    destruct (Z.eqb_spec (Z.of_nat (0 + k)) (-1)); [lia|]. cbn.
    split; [by left|]. split; [f_equal; lia|done].
Qed.

Lemma water_patterns_shape (pattern : list byte) :
  pattern ∈ water_patterns → (x00 ∉ pattern) ∧ (length pattern ≤ 100)%nat.
Proof.
  unfold water_patterns. rewrite !elem_of_cons, elem_of_nil.
  intros [->|[->|[]]]; (split; [|cbn; lia]);
    cbn; intros H;
    repeat (apply elem_of_cons in H as [H|H]; [discriminate|]);
    by apply elem_of_nil in H.
Qed.

(** X4. A material path is reported only with water, and it is the text found
    in the buffer at the first occurrence of a known pattern: it begins
    with that pattern, runs on as the buffer does, and holds no NUL. *)
Theorem material_path_from_pattern (data : list byte) (n : Z) (p : string) :
  material_path (parse_water_from_sector data n) = Some p →
  has_water (parse_water_from_sector data n) = true
  ∧ ∃ pattern pos, pattern ∈ water_patterns
      ∧ hex_offset_material (parse_water_from_sector data n)
        = Some (Z.of_nat pos)
      ∧ pattern `prefix_of` list_byte_of_string p
      ∧ list_byte_of_string p `prefix_of` drop pos data
      ∧ x00 ∉ list_byte_of_string p.
Proof.
  unfold parse_water_from_sector.
  destruct (_ <? _)%nat; [done|].
  destruct (struct_unpack_f _) as [h|]; [|done].
  destruct (float_ne h float_zero); [|done].
  destruct (find_first_pattern_cases water_patterns data)
    as [->|(pattern & pos & Hin & -> & Hpre)]; [done|].
  destruct (Z.eqb_spec (Z.of_nat pos) (-1)); [lia|].
  cbn [negb material_path has_water hex_offset_material].
  rewrite Nat2Z.id. intros [= <-]. split; [done|].
  exists pattern, pos. split; [done|]. split; [done|].
  unfold decode_latin1. rewrite list_byte_of_string_of_list_byte.
  destruct (water_patterns_shape pattern Hin) as [Hnul Hlen].
  unfold bytes_find.
  destruct (nul_search (drop pos data) pos) as [[-> Hfree]|(k & -> & Hfree & Hk)].
  - cbn [Z.eqb negb]. split; [by apply prefix_take_ge|].
    split; [apply prefix_take|].
    intros Hin'. apply Hfree. apply elem_of_take in Hin' as (j & Hj & _).
    apply list_elem_of_lookup. eauto.
  - destruct (Z.eqb_spec (Z.of_nat (pos + k)) (-1)); [lia|]. cbn [negb].
    replace (Z.to_nat (Z.of_nat (pos + k)) - pos)%nat with k by lia.
    split; [|split; [apply prefix_take|done]].
    apply prefix_take_ge; [done|].
    destruct (decide (length pattern ≤ k)%nat) as [|Hshort]; [done|].
    exfalso. apply Hnul. apply list_elem_of_lookup. exists k.
    by rewrite (prefix_lookup_lt pattern (drop pos data) k) by (done || lia).
Qed.

Lemma material_path_from_pattern_witness :
  let data := replicate 176 x01 ++ [x00; x00; x80; x3f]
              ++ list_byte_of_string "graphics_materials\editor\water_sea"
              ++ [x00; x41] in
  has_water (parse_water_from_sector data 4) = true
  ∧ ∃ pattern pos, pattern ∈ water_patterns
      ∧ hex_offset_material (parse_water_from_sector data 4)
        = Some (Z.of_nat pos)
      ∧ pattern `prefix_of`
          list_byte_of_string "graphics_materials\editor\water_sea"
      ∧ list_byte_of_string "graphics_materials\editor\water_sea"
          `prefix_of` drop pos data
      ∧ x00 ∉ list_byte_of_string "graphics_materials\editor\water_sea".
Proof.
  intros data.
  apply (material_path_from_pattern data 4
           "graphics_materials\editor\water_sea").
  reflexivity.
Defined.

(** ** The standard path of the compositor *)

Lemma lookup_splice {A} (a n : nat) (mid l : list A) (k : nat) :
  (a + n ≤ length l)%nat → length mid = n →
  (take a l ++ mid ++ drop (a + n) l) !! k
  = if decide (a ≤ k < a + n)%nat then mid !! (k - a)%nat else l !! k.
Proof.
  intros Hl Hmid. destruct (decide (k < a)%nat) as [Hlt|Hge].
  - rewrite lookup_app_l by (rewrite length_take; lia).
    rewrite lookup_take_lt by done. by rewrite decide_False by lia.
  - rewrite lookup_app_r by (rewrite length_take; lia).
    rewrite length_take, Nat.min_l by lia.
    destruct (decide (k < a + n)%nat) as [Hin|Hout].
    + rewrite lookup_app_l by lia. by rewrite decide_True by lia.
    + rewrite lookup_app_r by lia. rewrite lookup_drop.
      rewrite decide_False by lia. f_equal. lia.
Qed.

Lemma lookup_set_slice {A} (i j : Z) (new l : list A) (k : nat) :
  0 ≤ i ≤ j → j ≤ Z.of_nat (length l) → length new = Z.to_nat (j - i) →
  set_slice i j new l !! k
  = if decide (i ≤ Z.of_nat k < j) then new !! (k - Z.to_nat i)%nat
    else l !! k.
Proof.
  intros Hi Hj Hnew. unfold set_slice. rewrite !slice_index_in by lia.
  rewrite lookup_splice by lia.
  destruct (decide (Z.to_nat i ≤ k < _)%nat), (decide (i ≤ Z.of_nat k < j));
    (done || lia).
Qed.

Lemma pixel_set_slice2 {A} (h w : nat) (y0 y1 x0 x1 : Z)
    (new a : array2 A) (y x : nat) :
  has_shape h w a →
  has_shape (Z.to_nat (y1 - y0)) (Z.to_nat (x1 - x0)) new →
  0 ≤ y0 ≤ y1 → y1 ≤ Z.of_nat h → 0 ≤ x0 ≤ x1 → x1 ≤ Z.of_nat w →
  pixel (set_slice2 y0 y1 x0 x1 new a) y x
  = if decide ((y0 ≤ Z.of_nat y < y1) ∧ (x0 ≤ Z.of_nat x < x1))
    then pixel new (y - Z.to_nat y0) (x - Z.to_nat x0)
    else pixel a y x.
Proof.
  intros [Hh Hw] [Hnh Hnw] Hy0 Hy1 Hx0 Hx1. unfold pixel, set_slice2.
  rewrite !slice_index_in by lia.
  rewrite lookup_splice;
    [|lia|rewrite length_zip_with, length_take, length_drop; lia].
  destruct (decide (Z.to_nat y0 ≤ y < _)%nat) as [Hy|Hy].
  - rewrite lookup_zip_with, lookup_take_lt, lookup_drop by lia.
    replace (Z.to_nat y0 + (y - Z.to_nat y0))%nat with y by lia.
    destruct (new !! (y - Z.to_nat y0)%nat) as [new_row|] eqn:Hnew.
    2: { apply lookup_ge_None in Hnew. lia. }
    destruct (a !! y) as [row|] eqn:Hrow.
    2: { apply lookup_ge_None in Hrow. lia. }
    cbn. rewrite Forall_forall in Hw, Hnw.
    rewrite lookup_set_slice.
    + destruct (decide (x0 ≤ Z.of_nat x < x1)).
      * rewrite decide_True by lia. done.
      * rewrite decide_False by lia. done.
    + done.
    + rewrite (Hw row); [lia|]. apply list_elem_of_lookup. eauto.
    + apply Hnw. apply list_elem_of_lookup. eauto.
  - rewrite decide_False by lia. done.
Qed.

Lemma zip_with_assign {A B} (h w : nat) (lhs : array2 A) (rhs : array2 B) :
  has_shape h w lhs → has_shape h w rhs →
  zip_with (zip_with (λ _ new, new)) lhs rhs = rhs.
Proof.
  intros [Hlh Hlw] [Hrh Hrw]. rewrite <- Hrh in Hlh. clear Hrh.
  revert lhs Hlh Hlw. induction rhs as [|r rhs IH]; intros [|l lhs] Hlh Hlw;
    try done.
  apply Forall_cons in Hlw as [Hl Hlw]. apply Forall_cons in Hrw as [Hr Hrw].
  cbn. f_equal; [|apply IH; [done|cbn in Hlh; lia|done]].
  rewrite <- Hr in Hl. clear -Hl. revert l Hl.
  induction r as [|b r IHr]; intros [|a l] Hl; try done.
  cbn. f_equal. apply IHr. cbn in Hl. lia.
Qed.

(** An assignment to a slice of the right shape stores the new block. *)
Lemma slice2_update_assign {A} (h w : nat) (y0 y1 x0 x1 : Z)
    (rhs a : array2 A) :
  has_shape h w a →
  has_shape (Z.to_nat (y1 - y0)) (Z.to_nat (x1 - x0)) rhs →
  0 ≤ y0 ≤ y1 → y1 ≤ Z.of_nat h → 0 ≤ x0 ≤ x1 → x1 ≤ Z.of_nat w →
  slice2_update (λ _ new, new) y0 y1 x0 x1 rhs a
  = Returns (set_slice2 y0 y1 x0 x1 rhs a).
Proof.
  intros Ha Hrhs Hy0 Hy1 Hx0 Hx1. unfold slice2_update.
  pose proof (has_shape_slice2 h w y0 y1 x0 x1 a Ha Hy0 Hy1 Hx0 Hx1) as Hlhs.
  rewrite (same_shape_true _ _ _ _ Hlhs Hrhs).
  by rewrite (zip_with_assign _ _ _ _ Hlhs Hrhs).
Qed.

Lemma for_each_returns_visited {A S} (I : list A → S → Prop) (l : list A)
    (body : A → S → result S) (s : S) (visited : list A) :
  I visited s →
  (∀ visited a s, a ∈ l → I visited s →
     ∃ s', body a s = Returns s' ∧ I (visited ++ [a]) s') →
  ∃ s', for_each l body s = Returns s' ∧ I (visited ++ l) s'.
Proof.
  revert s visited. induction l as [|a l IH]; intros s visited Hs Hbody.
  - exists s. by rewrite app_nil_r.
  - destruct (Hbody visited a s) as (s1 & Hs1 & HI1); [left|done|].
    destruct (IH s1 (visited ++ [a]) HI1) as (s' & Hs' & HI').
    { intros vis b t Hb. apply Hbody. by right. }
    exists s'. cbn. rewrite Hs1. cbn. split; [done|].
    by rewrite <- app_assoc in HI'.
Qed.

Lemma cell_of_spec (p : nat) (r : Z) :
  cell_of p = r ↔ r * 65 ≤ Z.of_nat p < r * 65 + 65.
Proof.
  unfold cell_of, grid_size. rewrite Nat2Z.inj_div.
  change (Z.of_nat 65) with 65.
  split; [intros <-|intros Hr]; Z.to_euclidean_division_equations; lia.
Qed.

Lemma within_cell_spec (p : nat) (r : Z) :
  cell_of p = r → within_cell p = (p - Z.to_nat (r * 65))%nat.
Proof.
  intros <-. unfold cell_of, within_cell, grid_size.
  pose proof (Nat.div_mod_eq p 65). lia.
Qed.

Lemma within_cell_lt (p : nat) : (within_cell p < grid_size)%nat.
Proof. apply Nat.mod_upper_bound. done. Qed.

Lemma pixel_is_Some {A} (h w : nat) (a : array2 A) (y x : nat) :
  has_shape h w a → (y < h)%nat → (x < w)%nat → is_Some (pixel a y x).
Proof.
  intros [Hh Hw] Hy Hx. unfold pixel.
  destruct (a !! y) as [row|] eqn:Hrow.
  2: { apply lookup_ge_None in Hrow. lia. }
  cbn. apply lookup_lt_is_Some. rewrite Forall_forall in Hw.
  rewrite (Hw row); [done|]. apply list_elem_of_lookup. eauto.
Qed.

(** Storing the block of a cell extends what a buffer shows by that cell. *)
Lemma shows_place {A} (h w : nat) (zero : A) (f : nat → nat → A)
    (visited : list (Z * Z)) (r c : Z) (block buffer : array2 A) :
  shows h w zero f visited buffer →
  has_shape grid_size grid_size block →
  0 ≤ r → r * 65 + 65 ≤ Z.of_nat h → 0 ≤ c → c * 65 + 65 ≤ Z.of_nat w →
  (∀ y x, cell_of y = r → cell_of x = c →
     f y x = default zero (pixel block (within_cell y) (within_cell x))) →
  ∃ buffer',
    slice2_update (λ _ new, new) (r * Z.of_nat grid_size)
      (r * Z.of_nat grid_size + Z.of_nat grid_size)
      (c * Z.of_nat grid_size)
      (c * Z.of_nat grid_size + Z.of_nat grid_size) block buffer
    = Returns buffer'
    ∧ shows h w zero f (visited ++ [(r, c)]) buffer'.
Proof.
  intros [Hshape Hpix] Hblock Hr0 Hr1 Hc0 Hc1 Hf.
  change (Z.of_nat grid_size) with 65.
  assert (has_shape (Z.to_nat (r * 65 + 65 - r * 65))
            (Z.to_nat (c * 65 + 65 - c * 65)) block) as Hblock'.
  { by replace (r * 65 + 65 - r * 65) with 65 by lia;
      replace (c * 65 + 65 - c * 65) with 65 by lia. }
  eexists. split.
  { apply (slice2_update_assign h w); (done || lia). }
  split; [apply has_shape_set_slice2; (done || lia)|].
  intros y x Hy Hx.
  rewrite (pixel_set_slice2 h w) by (done || lia).
  destruct (decide (_ ∧ _)) as [[Hyr Hxc]|Hout].
  - apply cell_of_spec in Hyr, Hxc.
    rewrite decide_True by (rewrite elem_of_app, list_elem_of_singleton;
                            right; congruence).
    rewrite Hf by done.
    rewrite <- (within_cell_spec y r), <- (within_cell_spec x c) by done.
    destruct (pixel_is_Some grid_size grid_size block
                (within_cell y) (within_cell x) Hblock
                (within_cell_lt y) (within_cell_lt x)) as [p ->]. done.
  - rewrite Hpix by done. f_equal.
    assert ((cell_of y, cell_of x) ≠ (r, c)) as Hne.
    { intros [= Hyr Hxc]. apply cell_of_spec in Hyr, Hxc. by apply Hout. }
    destruct (decide (_ ∈ visited)) as [Hin|Hnin].
    + rewrite decide_True; [done|]. apply elem_of_app. by left.
    + rewrite decide_False; [done|].
      rewrite elem_of_app, list_elem_of_singleton. intros [|]; done.
Qed.

(** A cell for which the mosaic shows the initial value needs no store. *)
Lemma shows_skip {A} (h w : nat) (zero : A) (f : nat → nat → A)
    (visited : list (Z * Z)) (r c : Z) (buffer : array2 A) :
  shows h w zero f visited buffer →
  (∀ y x, cell_of y = r → cell_of x = c → f y x = zero) →
  shows h w zero f (visited ++ [(r, c)]) buffer.
Proof.
  intros [Hshape Hpix] Hf. split; [done|]. intros y x Hy Hx.
  rewrite Hpix by done. f_equal.
  destruct (decide (_ ∈ visited)) as [Hin|Hnin].
  - rewrite decide_True; [done|]. apply elem_of_app. by left.
  - destruct (decide (_ ∈ visited ++ _)) as [Hin'|]; [|done].
    apply elem_of_app in Hin' as [|Hin']; [done|].
    apply list_elem_of_singleton in Hin'. injection Hin' as Hyr Hxc.
    symmetry. by apply Hf.
Qed.

Lemma place_cell_eq (v : Viewer) (r c : Z) (a : Assembly) :
  place_cell v (r, c) a
  = let s := settings v in
    let index := heightmap_sector_index s r c in
    let y0 := r * Z.of_nat grid_size in
    let x0 := c * Z.of_nat grid_size in
    match sectors_data v !! index with
    | Some data =>
        combined_map ← slice2_update (λ _ new, new)
                         y0 (y0 + Z.of_nat grid_size)
                         x0 (x0 + Z.of_nat grid_size)
                         (placed_heights s data) (asm_map a);
        match asm_texture a,
              sectors_textures v !! texture_sector_index s r c with
        | Some combined_texture, Some texture =>
            combined_texture ← slice2_update (λ _ new, new)
                                 y0 (y0 + Z.of_nat grid_size)
                                 x0 (x0 + Z.of_nat grid_size)
                                 (placed_texture s texture) combined_texture;
            mret (mkAssembly combined_map (Some combined_texture)
                    (asm_displayed a ++ [index]) (asm_missing a))
        | _, _ =>
            mret (mkAssembly combined_map (asm_texture a)
                    (asm_displayed a ++ [index]) (asm_missing a))
        end
    | None =>
        mret (mkAssembly (asm_map a) (asm_texture a) (asm_displayed a)
                (asm_missing a ++ [index]))
    end.
Proof. reflexivity. Qed.

Lemma has_shape_placed_heights (s : Settings) (data : array2 Qc) :
  has_shape grid_size grid_size data →
  has_shape grid_size grid_size (placed_heights s data).
Proof.
  intros Hd. unfold placed_heights.
  destruct (_ && _); [done|by apply has_shape_reverse].
Qed.

Lemma has_shape_placed_texture (s : Settings) (texture : array2 rgb) :
  has_shape grid_size grid_size texture →
  has_shape grid_size grid_size (placed_texture s texture).
Proof.
  intros Hd. unfold placed_texture.
  repeat destruct (String.eqb _ _); (done || by apply has_shape_reverse).
Qed.

Lemma filter_snoc_True {A} (P : A → Prop) `{!∀ x, Decision (P x)}
    (f : Z * Z → A) (visited : list (Z * Z)) (cell : Z * Z) :
  P (f cell) →
  filter P (f <$> visited ++ [cell]) = filter P (f <$> visited) ++ [f cell].
Proof.
  intros HP. rewrite fmap_app, filter_app. cbn [fmap list_fmap].
  by rewrite filter_cons, decide_True, filter_nil.
Qed.

Lemma filter_snoc_False {A} (P : A → Prop) `{!∀ x, Decision (P x)}
    (f : Z * Z → A) (visited : list (Z * Z)) (cell : Z * Z) :
  ¬ P (f cell) →
  filter P (f <$> visited ++ [cell]) = filter P (f <$> visited).
Proof.
  intros HP. rewrite fmap_app, filter_app. cbn [fmap list_fmap].
  by rewrite filter_cons, decide_False, filter_nil, app_nil_r.
Qed.

(** One turn of the loop of the standard path keeps the invariant. *)
Lemma place_cell_step (v : Viewer) (h w : nat) (textured : bool)
    (visited : list (Z * Z)) (r c : Z) (a : Assembly) :
  well_shaped (sectors_data v) → well_shaped (sectors_textures v) →
  0 ≤ r → r * 65 + 65 ≤ Z.of_nat h → 0 ≤ c → c * 65 + 65 ≤ Z.of_nat w →
  standard_invariant v h w textured visited a →
  ∃ a', place_cell v (r, c) a = Returns a'
        ∧ standard_invariant v h w textured (visited ++ [(r, c)]) a'.
Proof.
  intros Hdata Htex Hr0 Hr1 Hc0 Hc1 (Hmap & Htexture & Hdisp & Hmiss).
  rewrite place_cell_eq. cbv zeta.
  destruct (sectors_data v !! _) as [data|] eqn:Hlookup.
  - destruct (shows_place h w 0%Qc (mosaic_height v) visited r c
                (placed_heights (settings v) data) (asm_map a))
      as (map' & -> & Hmap'); try done.
    { eapply has_shape_placed_heights, Hdata, Hlookup. }
    { intros y x <- <-. unfold mosaic_height. by rewrite Hlookup. }
    cbn [mbind result_bind].
    assert (asm_displayed a ++ [heightmap_sector_index (settings v) r c]
            = filter (λ i, is_Some (sectors_data v !! i))
                ((λ cell : Z * Z,
                    heightmap_sector_index (settings v) cell.1 cell.2)
                   <$> visited ++ [(r, c)])) as Hd'.
    { rewrite filter_snoc_True, Hdisp; [done|]. cbn. by rewrite Hlookup. }
    assert (asm_missing a
            = filter (λ i, ¬ is_Some (sectors_data v !! i))
                ((λ cell : Z * Z,
                    heightmap_sector_index (settings v) cell.1 cell.2)
                   <$> visited ++ [(r, c)])) as Hm'.
    { rewrite filter_snoc_False, Hmiss; [done|].
      cbn. rewrite Hlookup. intros Hn. by apply Hn. }
    destruct (asm_texture a) as [t|] eqn:Hat.
    + destruct Htexture as [-> Ht].
      destruct (sectors_textures v !! _) as [texture|] eqn:Htl.
      * destruct (shows_place h w ((0, 0, 0) : rgb) (mosaic_colour v) visited
                    r c (placed_texture (settings v) texture) t)
          as (t' & -> & Ht'); try done.
        { eapply has_shape_placed_texture, Htex, Htl. }
        { intros y x <- <-. unfold mosaic_colour. by rewrite Hlookup, Htl. }
        eexists. split; [reflexivity|].
        split; [done|]. split; [by split|]. by split.
      * eexists. split; [reflexivity|].
        split; [done|]. split; [|done].
        cbn [asm_texture]. split; [done|].
        apply shows_skip; [done|].
        intros y x <- <-. unfold mosaic_colour. by rewrite Hlookup, Htl.
    + eexists. split; [reflexivity|]. by split.
  - eexists. split; [reflexivity|].
    cbn [asm_map asm_texture asm_displayed asm_missing].
    split.
    { apply shows_skip; [done|].
      intros y x <- <-. unfold mosaic_height. by rewrite Hlookup. }
    split.
    { destruct (asm_texture a) as [t|]; [|done].
      destruct Htexture as [-> Ht]. split; [done|].
      apply shows_skip; [done|].
      intros y x <- <-. unfold mosaic_colour. by rewrite Hlookup. }
    rewrite filter_snoc_False, filter_snoc_True, Hmiss.
    + done.
    + cbn. rewrite Hlookup. by intros [? ?].
    + cbn. rewrite Hlookup. by intros [? ?].
Qed.

Lemma shows_initial {A} (h w : nat) (zero : A) (f : nat → nat → A) :
  shows h w zero f [] (replicate h (replicate w zero)).
Proof.
  split; [apply has_shape_replicate|]. intros y x Hy Hx. unfold pixel.
  rewrite lookup_replicate_2 by done. cbn.
  rewrite lookup_replicate_2 by done.
  by rewrite decide_False by apply not_elem_of_nil.
Qed.

Lemma update_display_standard (v : Viewer) :
  standard_path (settings v) → sectors_data v ≠ ∅ →
  0 ≤ sectors_x (settings v) → 0 ≤ sectors_y (settings v) →
  update_display v
  = a ← for_each (grid_cells (sectors_x (settings v)) (sectors_y (settings v)))
          (place_cell v)
          (mkAssembly
             (replicate (mosaic_size (sectors_y (settings v)))
                (replicate (mosaic_size (sectors_x (settings v))) 0%Qc))
             (if textures_shown v
              then Some (replicate (mosaic_size (sectors_y (settings v)))
                           (replicate (mosaic_size (sectors_x (settings v)))
                              ((0, 0, 0) : rgb)))
              else None) [] []);
    mret (Some (finish_display (settings v) a)).
Proof.
  intros Hpath Hdata Hx Hy. unfold update_display.
  rewrite bool_decide_eq_false_2 by done.
  rewrite !np_zeros_returns
    by (change (Z.of_nat grid_size) with 65; lia).
  unfold standard_path in Hpath. rewrite Hpath.
  cbn [mbind result_bind]. fold (textures_shown v).
  by destruct (textures_shown v).
Qed.

(** The loop of the standard path runs to its end and establishes the
    invariant for all cells of the grid. *)
Lemma standard_loop (v : Viewer) :
  0 ≤ sectors_x (settings v) → 0 ≤ sectors_y (settings v) →
  well_shaped (sectors_data v) → well_shaped (sectors_textures v) →
  ∃ a,
    for_each (grid_cells (sectors_x (settings v)) (sectors_y (settings v)))
      (place_cell v)
      (mkAssembly
         (replicate (mosaic_size (sectors_y (settings v)))
            (replicate (mosaic_size (sectors_x (settings v))) 0%Qc))
         (if textures_shown v
          then Some (replicate (mosaic_size (sectors_y (settings v)))
                       (replicate (mosaic_size (sectors_x (settings v)))
                          ((0, 0, 0) : rgb)))
          else None) [] [])
    = Returns a
    ∧ standard_invariant v (mosaic_size (sectors_y (settings v)))
        (mosaic_size (sectors_x (settings v))) (textures_shown v)
        (grid_cells (sectors_x (settings v)) (sectors_y (settings v))) a.
Proof.
  intros Hx Hy Hdata Htex.
  apply (for_each_returns_visited
           (standard_invariant v (mosaic_size (sectors_y (settings v)))
              (mosaic_size (sectors_x (settings v))) (textures_shown v))
           _ _ _ []).
  - split; [apply shows_initial|]. split; [|done].
    destruct (textures_shown v); [|done]. split; [done|apply shows_initial].
  - intros visited [r c] a Hcell Ha.
    apply elem_of_grid_cells in Hcell as [Hr Hc].
    apply place_cell_step; try done; unfold mosaic_size;
      change (Z.of_nat grid_size) with 65; lia.
Qed.

Lemma pixel_in_grid (sx sy : Z) (y x : nat) :
  (y < mosaic_size sy)%nat → (x < mosaic_size sx)%nat →
  (cell_of y, cell_of x) ∈ grid_cells sx sy.
Proof.
  unfold mosaic_size. change (Z.of_nat grid_size) with 65. intros Hy Hx.
  apply elem_of_grid_cells.
  pose proof (proj1 (cell_of_spec y (cell_of y)) eq_refl).
  pose proof (proj1 (cell_of_spec x (cell_of x)) eq_refl). lia.
Qed.

Lemma length_bind_const {A B} (f : A → list B) (n : nat) (l : list A) :
  (∀ a, length (f a) = n) → length (l ≫= f) = (length l * n)%nat.
Proof.
  intros Hf. induction l as [|a l IH]; [done|].
  rewrite bind_cons, length_app, Hf, IH. cbn. lia.
Qed.

Lemma length_grid_cells (sx sy : Z) :
  0 ≤ sx → 0 ≤ sy → Z.of_nat (length (grid_cells sx sy)) = sx * sy.
Proof.
  intros Hx Hy. unfold grid_cells.
  rewrite (length_bind_const _ (Z.to_nat sx)), length_seqZ; [lia|].
  intros r. rewrite (length_bind_const _ 1%nat), length_seqZ; [lia|done].
Qed.

Lemma length_filter_split {A} (P : A → Prop) `{!∀ x, Decision (P x)}
    (l : list A) :
  (length (filter P l) + length (filter (λ x, ¬ P x) l))%nat = length l.
Proof.
  induction l as [|a l IH]; [done|]. rewrite !filter_cons.
  destruct (decide (P a)).
  - rewrite decide_False by tauto. cbn. lia.
  - rewrite decide_True by done. cbn. lia.
Qed.

(** X5. On the standard path [update_display] returns, and the height buffer
    is the mosaic: [65 sy] rows of [65 sx] samples, where the pixel
    [(y, x)] holds the sample [(y mod 65, x mod 65)] of the sector that the
    ordering assigns to the cell [(y / 65, x / 65)], taken from the sector
    turned upside down unless the vertical game layout is applied to the
    heights, and zero where the collection lacks that sector. *)
Theorem standard_path_heights (v : Viewer) :
  standard_path (settings v) → sectors_data v ≠ ∅ →
  0 ≤ sectors_x (settings v) → 0 ≤ sectors_y (settings v) →
  well_shaped (sectors_data v) → well_shaped (sectors_textures v) →
  ∃ d, update_display v = Returns (Some d)
       ∧ has_shape (mosaic_size (sectors_y (settings v)))
           (mosaic_size (sectors_x (settings v))) (current_combined_map d)
       ∧ ∀ y x, (y < mosaic_size (sectors_y (settings v)))%nat →
           (x < mosaic_size (sectors_x (settings v)))%nat →
           pixel (current_combined_map d) y x = Some (mosaic_height v y x).
Proof.
  intros Hpath Hne Hx Hy Hdata Htex.
  rewrite update_display_standard by done.
  destruct (standard_loop v Hx Hy Hdata Htex)
    as (a & -> & [Hshape Hpix] & _).
  eexists. split; [reflexivity|]. split; [done|].
  intros y x Hyy Hxx. cbn [finish_display current_combined_map].
  rewrite Hpix by done.
  by rewrite decide_True by by apply pixel_in_grid.
Qed.

(** X6. On the standard path with textures shown and no rotation, the
    texture buffer is the mosaic of the textures: the pixel [(y, x)] holds
    the pixel [(y mod 65, x mod 65)] of the texture of its cell, and black
    where the cell has no height sector or no texture. *)
Theorem standard_path_texture (v : Viewer) :
  standard_path (settings v) → sectors_data v ≠ ∅ →
  0 ≤ sectors_x (settings v) → 0 ≤ sectors_y (settings v) →
  well_shaped (sectors_data v) → well_shaped (sectors_textures v) →
  textures_shown v = true → map_rotation (settings v) = 0 →
  ∃ d t, update_display v = Returns (Some d)
       ∧ combined_texture d = Some t
       ∧ has_shape (mosaic_size (sectors_y (settings v)))
           (mosaic_size (sectors_x (settings v))) t
       ∧ ∀ y x, (y < mosaic_size (sectors_y (settings v)))%nat →
           (x < mosaic_size (sectors_x (settings v)))%nat →
           pixel t y x = Some (mosaic_colour v y x).
Proof.
  intros Hpath Hne Hx Hy Hdata Htex Hshown Hrot.
  rewrite update_display_standard by done.
  destruct (standard_loop v Hx Hy Hdata Htex) as (a & -> & _ & Ht & _).
  destruct (asm_texture a) as [t|] eqn:Hat; [|congruence].
  destruct Ht as [_ [Hshape Hpix]].
  exists (finish_display (settings v) a), t. split; [reflexivity|].
  split; [unfold finish_display; cbn; by rewrite Hat, Hrot|].
  split; [done|]. intros y x Hyy Hxx. rewrite Hpix by done.
  by rewrite decide_True by by apply pixel_in_grid.
Qed.

(** X7. On the standard path the two lists of the report split the cells of
    the grid: a cell is listed as displayed when the collection holds its
    sector and as missing when it does not, in the order of the loop, so
    the two counts add up to [sectors_x * sectors_y]. *)
Theorem standard_path_report (v : Viewer) :
  standard_path (settings v) → sectors_data v ≠ ∅ →
  0 ≤ sectors_x (settings v) → 0 ≤ sectors_y (settings v) →
  well_shaped (sectors_data v) → well_shaped (sectors_textures v) →
  ∃ d, update_display v = Returns (Some d)
       ∧ displayed_sectors d
         = filter (λ i, is_Some (sectors_data v !! i))
             (cell_indices (settings v))
       ∧ missing_sectors d
         = filter (λ i, ¬ is_Some (sectors_data v !! i))
             (cell_indices (settings v))
       ∧ Z.of_nat (length (displayed_sectors d) + length (missing_sectors d))
         = sectors_x (settings v) * sectors_y (settings v)
       ∧ reported_missing d = length (missing_sectors d).
Proof.
  intros Hpath Hne Hx Hy Hdata Htex.
  rewrite update_display_standard by done.
  destruct (standard_loop v Hx Hy Hdata Htex) as (a & -> & _ & _ & Hd & Hm).
  eexists. split; [reflexivity|].
  cbn [finish_display displayed_sectors missing_sectors].
  split; [done|]. split; [done|]. split.
  - rewrite Hd, Hm, length_filter_split, length_fmap.
    by apply length_grid_cells.
  - unfold reported_missing. cbn [info finish_display].
    destruct (asm_missing a); done.
Qed.

Lemma uniform_collection_nonempty {A} (n : nat) (v : A) :
  uniform_collection (S n) v ≠ ∅.
Proof.
  unfold uniform_collection. cbn [seq fmap list_fmap list_to_map foldr].
  apply insert_non_empty.
Qed.

Lemma well_shaped_empty {A} : well_shaped (∅ : gmap Z (array2 A)).
Proof. intros k d Hd. by rewrite lookup_empty in Hd. Qed.

Lemma standard_path_heights_witness :
  ∃ d, update_display (three_of_four false) = Returns (Some d)
       ∧ has_shape (mosaic_size 2) (mosaic_size 2) (current_combined_map d)
       ∧ ∀ y x, (y < mosaic_size 2)%nat → (x < mosaic_size 2)%nat →
           pixel (current_combined_map d) y x
           = Some (mosaic_height (three_of_four false) y x).
Proof.
  apply (standard_path_heights (three_of_four false)).
  - reflexivity.
  - apply uniform_collection_nonempty.
  - cbn. lia.
  - cbn. lia.
  - apply (all_uniform_well_shaped (Qc_of_Z 7)), uniform_collection_uniform.
  - apply well_shaped_empty.
Defined.

Lemma standard_path_texture_witness :
  ∃ d t, update_display (textured_pair 0) = Returns (Some d)
       ∧ combined_texture d = Some t
       ∧ has_shape (mosaic_size 1) (mosaic_size 2) t
       ∧ ∀ y x, (y < mosaic_size 1)%nat → (x < mosaic_size 2)%nat →
           pixel t y x = Some (mosaic_colour (textured_pair 0) y x).
Proof.
  apply (standard_path_texture (textured_pair 0)).
  - reflexivity.
  - apply uniform_collection_nonempty.
  - cbn. lia.
  - cbn. lia.
  - apply (all_uniform_well_shaped (Qc_of_Z 7)), uniform_collection_uniform.
  - apply (all_uniform_well_shaped ((10, 20, 30) : rgb)),
      uniform_collection_uniform.
  - unfold textures_shown. cbn [textured_pair settings enable_textures
      sectors_textures andb].
    rewrite bool_decide_eq_false_2; [done|apply uniform_collection_nonempty].
  - reflexivity.
Defined.

Lemma standard_path_report_witness :
  ∃ d, update_display (three_of_four false) = Returns (Some d)
       ∧ displayed_sectors d
         = filter (λ i, is_Some (sectors_data (three_of_four false) !! i))
             (cell_indices (settings (three_of_four false)))
       ∧ missing_sectors d
         = filter (λ i, ¬ is_Some (sectors_data (three_of_four false) !! i))
             (cell_indices (settings (three_of_four false)))
       ∧ Z.of_nat (length (displayed_sectors d) + length (missing_sectors d))
         = 2 * 2
       ∧ reported_missing d = length (missing_sectors d).
Proof.
  apply (standard_path_report (three_of_four false)).
  - reflexivity.
  - apply uniform_collection_nonempty.
  - cbn. lia.
  - cbn. lia.
  - apply (all_uniform_well_shaped (Qc_of_Z 7)), uniform_collection_uniform.
  - apply well_shaped_empty.
Defined.

(** ** The water overlay *)

Lemma scan_cols_Some (pattern : string) (sx sy n r : Z) (cols : list Z)
    (x0 y0 : Z) :
  scan_cols pattern sx sy n r cols = Some (x0, y0) →
  ∃ c, c ∈ cols ∧ x0 = c * 65 ∧ y0 = r * 65
       ∧ get_sector_index_from_position pattern r c sx sy = n.
Proof.
  induction cols as [|c cols IH]; [done|]. cbn [scan_cols].
  destruct (Z.eqb_spec (get_sector_index_from_position pattern r c sx sy) n)
    as [Heq|Hne].
  - intros [= <- <-]. exists c. split; [by left|done].
  - intros Hscan. destruct (IH Hscan) as (c' & Hin & Hrest).
    exists c'. split; [by right|done].
Qed.

Lemma scan_cols_None (pattern : string) (sx sy n r : Z) (cols : list Z) :
  scan_cols pattern sx sy n r cols = None ↔
  ∀ c, c ∈ cols → get_sector_index_from_position pattern r c sx sy ≠ n.
Proof.
  induction cols as [|c cols IH]; cbn [scan_cols].
  - split; [|done]. intros _ c Hc. by apply elem_of_nil in Hc.
  - destruct (Z.eqb_spec (get_sector_index_from_position pattern r c sx sy) n)
      as [Heq|Hne].
    + split; [done|]. intros Hall. exfalso. apply (Hall c); [by left|done].
    + rewrite IH. split.
      * intros Hall c' [->|Hin]%elem_of_cons; [done|by apply Hall].
      * intros Hall c' Hin. apply Hall. by right.
Qed.

Lemma scan_rows_Some (pattern : string) (sx sy n : Z) (rows : list Z)
    (x0 y0 : Z) :
  scan_rows pattern sx sy n rows = Some (x0, y0) →
  ∃ r c, r ∈ rows ∧ 0 ≤ c < sx ∧ x0 = c * 65 ∧ y0 = r * 65
         ∧ get_sector_index_from_position pattern r c sx sy = n.
Proof.
  induction rows as [|r rows IH]; [done|]. cbn [scan_rows].
  destruct (scan_cols pattern sx sy n r (seqZ 0 sx)) as [[x y]|] eqn:Hcols.
  - intros [= <- <-]. apply scan_cols_Some in Hcols as (c & Hc & Hrest).
    apply elem_of_seqZ in Hc. exists r, c. split; [by left|].
    split; [lia|done].
  - intros Hscan. destruct (IH Hscan) as (r' & c & Hin & Hrest).
    exists r', c. split; [by right|done].
Qed.

Lemma scan_rows_None (pattern : string) (sx sy n : Z) (rows : list Z) :
  scan_rows pattern sx sy n rows = None ↔
  ∀ r c, r ∈ rows → 0 ≤ c < sx →
    get_sector_index_from_position pattern r c sx sy ≠ n.
Proof.
  induction rows as [|r rows IH]; cbn [scan_rows].
  - split; [|done]. intros _ r c Hr. by apply elem_of_nil in Hr.
  - destruct (scan_cols pattern sx sy n r (seqZ 0 sx)) as [[x y]|] eqn:Hcols.
    + split; [done|]. intros Hall. exfalso.
      apply scan_cols_Some in Hcols as (c & Hc & _ & _ & Hidx).
      apply elem_of_seqZ in Hc. apply (Hall r c); [by left|lia|done].
    + rewrite IH. rewrite scan_cols_None in Hcols. split.
      * intros Hall r' c [->|Hin]%elem_of_cons Hc; [|by apply Hall].
        apply Hcols. apply elem_of_seqZ. lia.
      * intros Hall r' c Hin. apply Hall. by right.
Qed.

(** X8. A water rectangle is drawn over the cell of its own sector: the
    place of a drawn overlay is the corner of a cell whose height sector is
    the sector of the water record, and when the ordering is applied to the
    heights that cell lies in the grid. *)
Theorem water_overlay_on_own_sector (s : Settings) (sector_num : Z)
    (water : WaterData) (x_start y_start : Z) :
  water_overlay s sector_num water = Drawn x_start y_start →
  ∃ display_row col,
    x_start = col * 65 ∧ y_start = display_row * 65
    ∧ heightmap_sector_index s display_row col = sector_num
    ∧ (apply_pattern_to_heightmap s = true →
       (display_row, col) ∈ grid_cells (sectors_x s) (sectors_y s)).
Proof.
  unfold water_overlay, heightmap_sector_index.
  destruct (has_water water); [|done]. cbn [negb].
  destruct (apply_pattern_to_heightmap s).
  - destruct (scan_rows _ _ _ _ _) as [[x y]|] eqn:Hscan; [|done].
    intros [= <- <-].
    apply scan_rows_Some in Hscan as (r & c & Hr & Hc & -> & -> & Hidx).
    apply elem_of_seqZ in Hr. exists r, c.
    repeat split; try done. intros _. apply elem_of_grid_cells. lia.
  - destruct (Z.eqb_spec (sectors_x s) 0) as [|Hx]; [done|].
    change (Z.of_nat grid_size) with 65. intros [= <- <-].
    eexists _, _. repeat split; [|done].
    pose proof (Z.div_mod sector_num (sectors_x s) Hx). lia.
Qed.

Lemma water_overlay_on_own_sector_witness :
  ∃ display_row col,
    130 = col * 65 ∧ 65 = display_row * 65
    ∧ heightmap_sector_index plain_grid display_row col = 6
    ∧ (apply_pattern_to_heightmap plain_grid = true →
       (display_row, col) ∈ grid_cells 4 3).
Proof.
  apply (water_overlay_on_own_sector plain_grid 6
           (parse_water_from_sector water_one_buffer 6) 130 65).
  reflexivity.
Defined.

(** X9. When the ordering is applied to the heights, the water of a sector
    is left out exactly when no cell of the grid shows that sector. *)
Theorem water_overlay_skipped_iff (s : Settings) (sector_num : Z)
    (water : WaterData) :
  has_water water = true → apply_pattern_to_heightmap s = true →
  water_overlay s sector_num water = Skipped
  ↔ ∀ display_row col,
      (display_row, col) ∈ grid_cells (sectors_x s) (sectors_y s) →
      heightmap_sector_index s display_row col ≠ sector_num.
Proof.
  intros Hw Hp. unfold water_overlay, heightmap_sector_index.
  rewrite Hw, Hp. cbn [negb].
  destruct (scan_rows _ _ _ _ _) as [[x y]|] eqn:Hscan.
  - split; [done|]. intros Hall. exfalso.
    apply scan_rows_Some in Hscan as (r & c & Hr & Hc & _ & _ & Hidx).
    apply elem_of_seqZ in Hr.
    apply (Hall r c); [apply elem_of_grid_cells; lia|done].
  - split; [|done]. intros _ r c Hcell.
    apply elem_of_grid_cells in Hcell as [Hr Hc].
    rewrite scan_rows_None in Hscan. apply Hscan; [|done].
    apply elem_of_seqZ. lia.
Qed.

Lemma water_overlay_skipped_iff_witness :
  water_overlay patterned_grid 9 (parse_water_from_sector water_one_buffer 9)
  = Skipped
  ↔ ∀ display_row col,
      (display_row, col) ∈ grid_cells 2 2 →
      heightmap_sector_index patterned_grid display_row col ≠ 9.
Proof.
  apply (water_overlay_skipped_iff patterned_grid 9
           (parse_water_from_sector water_one_buffer 9));
    reflexivity.
Defined.



(** ** Atlas textures *)

Lemma subsector_mapping_cases (pattern : string) :
  subsector_mapping pattern
  ∈ [ [TL; TR; BL; BR]; [TR; BR; TL; BL]; [BL; TL; BR; TR];
      [BR; BL; TR; TL]; [TR; TL; BR; BL]; [BL; BR; TL; TR];
      [TL; BL; TR; BR] ].
Proof.
  unfold subsector_mapping. rewrite !elem_of_cons.
  repeat (destruct (str_in _ pattern); [tauto|]). tauto.
Qed.

(** X11. Whatever arrangement is selected, the four sub-textures cut from an
    atlas image tile it: every pixel of the image lies in the rectangle of
    exactly one of the sub-sectors 0 to 3. *)
Theorem atlas_subsectors_tile (pattern : string) (height width y x : Z) :
  0 ≤ y < height → 0 ≤ x < width →
  ∃ sub_sector, 0 ≤ sub_sector < 4
    ∧ covers pattern height width sub_sector y x
    ∧ ∀ other, 0 ≤ other < 4 →
        covers pattern height width other y x → other = sub_sector.
Proof.
  intros Hy Hx. unfold covers, get_atlas_subsector_coords.
  pose proof (subsector_mapping_cases pattern) as Hm.
  rewrite !elem_of_cons, elem_of_nil in Hm.
  assert (0 ≤ height / 2 ≤ height ∧ 0 ≤ width / 2 ≤ width) as [Hh Hw]
    by (Z.to_euclidean_division_equations; lia).
  assert (∀ other, 0 ≤ other < 4 →
            other = 0 ∨ other = 1 ∨ other = 2 ∨ other = 3) as Hfour by lia.
  destruct (Z.ltb_spec y (height / 2)), (Z.ltb_spec x (width / 2));
    destruct Hm as [->|[->|[->|[->|[->|[->|[->|[]]]]]]]];
    first
      [ exists 0; split; [lia|]; split;
        [eexists _, _, _, _; split; [reflexivity|lia]|]
      | exists 1; split; [lia|]; split;
        [eexists _, _, _, _; split; [reflexivity|lia]|]
      | exists 2; split; [lia|]; split;
        [eexists _, _, _, _; split; [reflexivity|lia]|]
      | exists 3; split; [lia|]; split;
        [eexists _, _, _, _; split; [reflexivity|lia]|] ];
    intros other Ho (y0 & y1 & x0 & x1 & Hc & Hyy & Hxx);
    destruct (Hfour other Ho) as [-> | [-> | [-> | ->]]];
    cbn in Hc; injection Hc as <- <- <- <-; lia.
Qed.

Lemma atlas_subsectors_tile_witness :
  ∃ sub_sector, 0 ≤ sub_sector < 4
    ∧ covers "Rotated CW [0=TR, 1=BR, 2=TL, 3=BL]" 512 511 sub_sector 10 300
    ∧ ∀ other, 0 ≤ other < 4 →
        covers "Rotated CW [0=TR, 1=BR, 2=TL, 3=BL]" 512 511 other 10 300 →
        other = sub_sector.
Proof.
  apply (atlas_subsectors_tile "Rotated CW [0=TR, 1=BR, 2=TL, 3=BL]"
           512 511 10 300); lia.
Defined.

(** X12. Each arrangement offered by the viewer does what its label says: the
    quadrant selected for sub-sector [k] is the one that the label names
    after [k=]. *)
Theorem atlas_labels_agree (pattern : string) (k : nat) (q : quadrant) :
  pattern ∈ atlas_patterns →
  subsector_mapping pattern !! k = Some q →
  str_in (label_entry k q) pattern = true.
Proof.
  unfold atlas_patterns. rewrite !elem_of_cons, elem_of_nil.
  intros [->|[->|[->|[->|[->|[->|[->|[->|[]]]]]]]]] Hq;
    vm_compute in Hq;
    destruct k as [|[|[|[|k]]]]; try discriminate Hq;
    injection Hq as <-; vm_compute; reflexivity.
Qed.

Lemma atlas_labels_agree_witness :
  str_in (label_entry 1 TL) "By Column Rev [0=BL, 1=TL, 2=BR, 3=TR]" = true.
Proof.
  apply (atlas_labels_agree "By Column Rev [0=BL, 1=TL, 2=BR, 3=TR]" 1 TL).
  - unfold atlas_patterns. rewrite !elem_of_cons. tauto.
  - reflexivity.
Defined.

Lemma enumerate_snoc {A} (l : list A) (a : A) :
  enumerate (l ++ [a]) = enumerate l ++ [(Z.of_nat (length l), a)].
Proof.
  unfold enumerate. rewrite imap_app. cbn. by rewrite Nat.add_0_r.
Qed.

Lemma map_atlases_snoc (l : list Z) (a : Z) :
  map_atlases (l ++ [a])
  = let base := Z.of_nat (length l) * 4 in
    <[base + 3 := (a, 3)]>
      (<[base + 2 := (a, 2)]>
         (<[base + 1 := (a, 1)]> (<[base + 0 := (a, 0)]> (map_atlases l)))).
Proof. unfold map_atlases. by rewrite enumerate_snoc, foldl_app. Qed.

(** The sector [s] is served by the atlas of rank [s / 4], sub-sector
    [s mod 4]. *)
Lemma map_atlases_lookup (l : list Z) (s : Z) :
  map_atlases l !! s
  = if decide (0 ≤ s < 4 * Z.of_nat (length l))
    then (λ a, (a, s mod 4)) <$> l !! Z.to_nat (s / 4)
    else None.
Proof.
  induction l as [|a l IH] using rev_ind.
  - unfold map_atlases. cbn. rewrite lookup_empty.
    by destruct (decide _); [lia|].
  - rewrite map_atlases_snoc. cbv zeta. rewrite length_app. cbn [length].
    set (n := length l) in *.
    assert (∀ j, 0 ≤ j < 4 → s = Z.of_nat n * 4 + j →
              (if decide (0 ≤ s < 4 * Z.of_nat (n + 1))
               then (λ a0, (a0, s mod 4)) <$> (l ++ [a]) !! Z.to_nat (s / 4)
               else None) = Some (a, j)) as Hhit.
    { intros j Hj ->. rewrite decide_True by lia.
      replace ((Z.of_nat n * 4 + j) / 4) with (Z.of_nat n)
        by (Z.to_euclidean_division_equations; lia).
      replace ((Z.of_nat n * 4 + j) mod 4) with j
        by (Z.to_euclidean_division_equations; lia).
      rewrite Nat2Z.id, lookup_app_r by (subst n; lia).
      subst n. by rewrite Nat.sub_diag. }
    destruct (decide (s = Z.of_nat n * 4 + 3)) as [E|N3];
      [rewrite E at 1; rewrite lookup_insert_eq; symmetry;
       by apply Hhit; [lia|]|rewrite lookup_insert_ne by done].
    destruct (decide (s = Z.of_nat n * 4 + 2)) as [E|N2];
      [rewrite E at 1; rewrite lookup_insert_eq; symmetry;
       by apply Hhit; [lia|]|rewrite lookup_insert_ne by done].
    destruct (decide (s = Z.of_nat n * 4 + 1)) as [E|N1];
      [rewrite E at 1; rewrite lookup_insert_eq; symmetry;
       by apply Hhit; [lia|]|rewrite lookup_insert_ne by done].
    destruct (decide (s = Z.of_nat n * 4 + 0)) as [E|N0];
      [rewrite E at 1; rewrite lookup_insert_eq; symmetry;
       by apply Hhit; [lia|]|rewrite lookup_insert_ne by done].
    rewrite IH. destruct (decide (0 ≤ s < 4 * Z.of_nat n)) as [Hin|Hout].
    + rewrite decide_True by lia. rewrite lookup_app_l; [done|].
      subst n. Z.to_euclidean_division_equations; lia.
    + rewrite decide_False; [done|lia].
Qed.

(** X13. A sector number below four times the number of distinct atlas
    numbers is served by the atlas whose number has rank [s / 4] among the
    numbers found, with sub-sector [s mod 4]; other sectors have no atlas.
    The ranks are those of the ascending list of the distinct numbers. *)
Theorem atlas_mapping_by_rank (found : list Z) :
  StronglySorted Z.le (sorted_atlas_numbers found)
  ∧ NoDup (sorted_atlas_numbers found)
  ∧ (∀ a, a ∈ sorted_atlas_numbers found ↔ a ∈ found)
  ∧ ∀ s, build_atlas_mapping found !! s
         = if decide (0 ≤ s < 4 * Z.of_nat (length (sorted_atlas_numbers found)))
           then (λ a, (a, s mod 4))
                  <$> sorted_atlas_numbers found !! Z.to_nat (s / 4)
           else None.
Proof.
  unfold build_atlas_mapping, sorted_atlas_numbers. repeat split.
  - apply StronglySorted_merge_sort; [intros ???; lia|intros ??; lia].
  - rewrite merge_sort_Permutation. apply NoDup_elements.
  - rewrite merge_sort_Permutation, elem_of_elements.
    apply elem_of_list_to_set.
  - rewrite merge_sort_Permutation, elem_of_elements.
    apply elem_of_list_to_set.
  - intros s. apply map_atlases_lookup.
Qed.

Lemma block_pattern_index (pattern : string) (r c sx sy : Z) :
  pattern ∈ block_patterns →
  ∃ offset, 0 ≤ offset < 4
    ∧ get_sector_index_from_position pattern r c sx sy
      = block_index pattern r c sx sy * 4 + offset.
Proof.
  unfold block_patterns. rewrite !elem_of_cons, elem_of_nil.
  unfold get_sector_index_from_position, block_index.
  intros [->|[->|[->|[->|[]]]]];
    repeat match goal with
           | |- context [String.eqb ?a ?b] =>
               let v := eval vm_compute in (String.eqb a b) in
               change (String.eqb a b) with v
           end;
    cbv iota zeta; eexists; (split; [|reflexivity]);
    repeat destruct (_ && _); lia.
Qed.

Lemma atlas_of_block (l : list Z) (block offset : Z) :
  0 ≤ offset < 4 →
  fst <$> map_atlases l !! (block * 4 + offset)
  = if decide (0 ≤ block < Z.of_nat (length l)) then l !! Z.to_nat block
    else None.
Proof.
  intros Ho. rewrite map_atlases_lookup.
  replace ((block * 4 + offset) / 4) with block
    by (Z.to_euclidean_division_equations; lia).
  destruct (decide (0 ≤ block < _)).
  - rewrite decide_True by lia. by destruct (l !! Z.to_nat block).
  - by rewrite decide_False by lia.
Qed.

(** X14. Under the four game layouts the four cells of a 2 x 2 block of the
    display take their textures from one and the same atlas file. *)
Theorem block_cells_share_atlas (found : list Z) (pattern : string)
    (sx sy r c r' c' : Z) :
  pattern ∈ block_patterns → r / 2 = r' / 2 → c / 2 = c' / 2 →
  fst <$> build_atlas_mapping found
            !! get_sector_index_from_position pattern r c sx sy
  = fst <$> build_atlas_mapping found
              !! get_sector_index_from_position pattern r' c' sx sy.
Proof.
  intros Hp Hr Hc.
  destruct (block_pattern_index pattern r c sx sy Hp) as (o & Ho & ->).
  destruct (block_pattern_index pattern r' c' sx sy Hp) as (o' & Ho' & ->).
  unfold build_atlas_mapping. rewrite !atlas_of_block by done.
  unfold block_index. by rewrite Hr, Hc.
Qed.

Lemma block_cells_share_atlas_witness :
  fst <$> build_atlas_mapping [4; 0; 2]
            !! get_sector_index_from_position avatar_vertical 2 1 4 4
  = fst <$> build_atlas_mapping [4; 0; 2]
              !! get_sector_index_from_position avatar_vertical 3 0 4 4.
Proof.
  apply (block_cells_share_atlas [4; 0; 2] avatar_vertical 4 4 2 1 3 0).
  - unfold block_patterns. rewrite !elem_of_cons. tauto.
  - reflexivity.
  - reflexivity.
Defined.

(** ** The label of sector 0 *)

(** X15. For each ordering offered by the viewer the label of sector 0 names
    a corner of the display, and the ordering puts sector 0 in that corner,
    with one exception: under "Swap 0↔3" the label says top left, where
    the ordering puts sector 3. *)
Theorem sector_zero_label_corner (pattern : string) (sx sy : Z) :
  pattern ∈ named_patterns → 1 ≤ sx → 1 ≤ sy →
  ∃ r c, named_corner (update_sector_zero_label pattern) sx sy = Some (r, c)
    ∧ 0 ≤ r < sy ∧ 0 ≤ c < sx
    ∧ get_sector_index_from_position pattern r c sx sy
      = if String.eqb pattern avatar_swap_0_3 then 3 else 0.
Proof.
  unfold named_patterns, block_patterns, linear_patterns.
  rewrite !elem_of_app, !elem_of_cons, !elem_of_nil.
  intros Hp Hx Hy.
  destruct Hp as [[->|[->|[->|[->|[]]]]]|[->|[->|[->|[->|[->|[->|[]]]]]]]];
    match goal with
    | |- context [update_sector_zero_label ?p] =>
        let l := eval vm_compute in (update_sector_zero_label p) in
        change (update_sector_zero_label p) with l
    end;
    unfold named_corner, get_sector_index_from_position;
    repeat match goal with
           | |- context [String.eqb ?a ?b] =>
               let v := eval vm_compute in (String.eqb a b) in
               change (String.eqb a b) with v
           | |- context [String.prefix ?a ?b] =>
               let v := eval vm_compute in (String.prefix a b) in
               change (String.prefix a b) with v
           end;
    cbv iota zeta; eexists _, _; (split; [reflexivity|]);
    (split; [lia|]); (split; [lia|]);
    try reflexivity; try (cbn; lia).
Qed.

Lemma sector_zero_label_corner_witness :
  ∃ r c, named_corner (update_sector_zero_label "Bottom-Right Sequential") 4 3
         = Some (r, c)
    ∧ 0 ≤ r < 3 ∧ 0 ≤ c < 4
    ∧ get_sector_index_from_position "Bottom-Right Sequential" r c 4 3
      = if String.eqb "Bottom-Right Sequential" avatar_swap_0_3 then 3 else 0.
Proof.
  apply (sector_zero_label_corner "Bottom-Right Sequential" 4 3); [|lia|lia].
  unfold named_patterns, block_patterns, linear_patterns.
  rewrite !elem_of_app, !elem_of_cons. tauto.
Defined.

(** ** Texture containers *)

(** X23. The container check accepts exactly the files made of the four
    magic bytes [TBX\0], 28 further header bytes and a payload that begins
    with [DDS ]; the payload, from byte 32 on, is what the image library is
    given.  A file with the right magic but fewer than 36 bytes is
    refused. *)
Theorem xbt_container_layout (contents dds_data : list byte) :
  load_xbt_as_dds contents = Some dds_data
  ↔ ∃ header rest,
      length header = 28%nat
      ∧ dds_data = dds_magic ++ rest
      ∧ contents = xbt_magic ++ header ++ dds_data.
Proof.
  unfold load_xbt_as_dds. cbv zeta. split.
  - destruct (bool_decide (take 4 contents ≠ xbt_magic)) eqn:Hm; [done|].
    apply bool_decide_eq_false in Hm. apply dec_stable in Hm.
    destruct (is_prefix dds_magic (drop 32 contents)) eqn:Hp; [|done].
    intros [= <-]. apply is_prefix_spec in Hp as [rest Hrest].
    assert (32 ≤ length contents)%nat as Hlen.
    { destruct (decide (32 ≤ length contents)%nat) as [|Hshort]; [done|].
      rewrite drop_ge in Hrest by lia. done. }
    exists (take 28 (drop 4 contents)), rest.
    split; [rewrite length_take, length_drop; lia|]. split; [done|].
    rewrite <- Hm.
    rewrite <- (take_drop 4 contents) at 1. f_equal.
    rewrite <- (take_drop 28 (drop 4 contents)) at 1. f_equal.
    by rewrite drop_drop.
  - intros (header & rest & Hh & -> & ->).
    assert (take 4 (xbt_magic ++ header ++ dds_magic ++ rest) = xbt_magic)
      as -> by done.
    rewrite bool_decide_eq_false_2 by (intros Hn; by apply Hn).
    assert (drop 32 (xbt_magic ++ header ++ dds_magic ++ rest)
            = dds_magic ++ rest) as ->.
    { rewrite drop_app_ge by (cbn; lia).
      rewrite drop_app_ge by (cbn; lia).
      replace (32 - length xbt_magic - length header)%nat with 0%nat
        by (cbn; lia). done. }
    replace (is_prefix dds_magic (dds_magic ++ rest)) with true; [done|].
    symmetry. apply is_prefix_spec. by exists rest.
Qed.

(** ** The loader *)

Lemma load_sectors_snoc (files : list SectorFile) (f : SectorFile) :
  load_sectors (files ++ [f]) = load_file (load_sectors files) f.
Proof. unfold load_sectors. by rewrite foldl_app. Qed.



(** X17. The bookkeeping of the loader: the count of loaded sectors is the
    length of the list of loaded numbers, the numbers listed are the keys
    of the collection, and the water records have the same keys.  A number
    carried by two files is counted twice, so the collection may hold fewer
    sectors than the count reports. *)
Theorem loader_bookkeeping (files : list SectorFile) :
  loaded_count (load_sectors files) = length (sector_numbers (load_sectors files))
  ∧ dom (loaded_water_data (load_sectors files))
    = dom (loaded_sectors_data (load_sectors files))
  ∧ (∀ n, n ∈ sector_numbers (load_sectors files)
          ↔ is_Some (loaded_sectors_data (load_sectors files) !! n))
  ∧ (size (loaded_sectors_data (load_sectors files))
     ≤ loaded_count (load_sectors files))%nat.
Proof.
  induction files as [|f files IH] using rev_ind.
  - unfold load_sectors. cbn. repeat split; try done.
    + by intros ?%elem_of_nil.
    + rewrite lookup_empty. by intros [? ?].
  - rewrite load_sectors_snoc. unfold load_file.
    destruct IH as (Hcount & Hdom & Hkeys & Hsize).
    destruct (file_sector_num f) as [m|]; [|done].
    destruct (load_single_sector (file_contents f)) as [h|]; [|done].
    cbn [loaded_sectors_data loaded_water_data sector_numbers loaded_count].
    split; [rewrite length_app; cbn; lia|].
    split; [by rewrite !dom_insert_L, Hdom|].
    split.
    + intros n. rewrite elem_of_app, list_elem_of_singleton, Hkeys.
      rewrite lookup_insert_is_Some. split.
      * intros [?| ->]; [destruct (decide (m = n)); tauto|tauto].
      * intros [->|[_ ?]]; tauto.
    + destruct (loaded_sectors_data (load_sectors files) !! m) eqn:Hm.
      * rewrite map_size_insert_Some by done. lia.
      * rewrite map_size_insert_None by done. lia.
Qed.

(** X18. For one to ten thousand loaded sectors the loader sets a grid that
    has a cell for each of them and that is as tight as it can be: its
    width is the least side of a square that holds them, and no row of it
    is without a sector when the sectors fill the rows in turn. *)
Theorem suggested_grid_fits (sector_numbers : list Z) (loaded_count : Z)
    (grid : Z * Z) :
  sector_numbers ≠ [] → 1 ≤ loaded_count ≤ 10000 →
  ∃ sectors_x sectors_y,
    suggest_grid sector_numbers loaded_count grid = (sectors_x, sectors_y)
    ∧ 1 ≤ sectors_y ≤ sectors_x ∧ sectors_x ≤ 100
    ∧ loaded_count ≤ sectors_x * sectors_y
    ∧ sectors_x * (sectors_y - 1) < loaded_count
    ∧ (sectors_x - 1) * (sectors_x - 1) < loaded_count.
Proof.
  intros Hne Hn. unfold suggest_grid, math_ceil_sqrt, math_ceil_div.
  destruct sector_numbers as [|n0 ns]; [done|].
  pose proof (Z.sqrt_up_spec loaded_count ltac:(lia)) as [Hlow Hup].
  set (s := Z.sqrt_up loaded_count) in *.
  replace (Z.pred s) with (s - 1) in Hlow by lia.
  assert (1 ≤ s) by nia. assert (s ≤ 100) by nia.
  destruct (Z.leb_spec s 100); [|lia].
  eexists _, _. split; [reflexivity|].
  pose proof (Z.div_mod (- loaded_count) s ltac:(lia)).
  pose proof (Z.mod_pos_bound (- loaded_count) s ltac:(lia)).
  set (q := - loaded_count / s) in *.
  repeat split; nia.
Qed.

Lemma suggested_grid_fits_witness :
  ∃ sectors_x sectors_y,
    suggest_grid [5; 0; 1; 2; 3; 4; 6] 7 (8, 8) = (sectors_x, sectors_y)
    ∧ 1 ≤ sectors_y ≤ sectors_x ∧ sectors_x ≤ 100
    ∧ 7 ≤ sectors_x * sectors_y
    ∧ sectors_x * (sectors_y - 1) < 7
    ∧ (sectors_x - 1) * (sectors_x - 1) < 7.
Proof.
  apply (suggested_grid_fits [5; 0; 1; 2; 3; 4; 6] 7 (8, 8)); [done|lia].
Defined.

(** ** From the decoder to the display *)

Lemma same_shape_has_shape {A B} (h w : nat) (a : array2 A) (b : array2 B) :
  same_shape a b = true → has_shape h w a → has_shape h w b.
Proof.
  unfold same_shape. intros Hs%bool_decide_eq_true [Hh Hw]. split.
  - by rewrite <- Hh, <- (length_fmap length a), Hs, length_fmap.
  - apply Forall_fmap with (f := length) (P := λ n, n = w).
    rewrite <- Hs. by apply Forall_fmap.
Qed.

Lemma slice2_update_keeps_shape {A B} (f : A → B → A) (h w : nat)
    (y0 y1 x0 x1 : Z) (rhs : array2 B) (a a' : array2 A) :
  has_shape h w a →
  0 ≤ y0 ≤ y1 → y1 ≤ Z.of_nat h → 0 ≤ x0 ≤ x1 → x1 ≤ Z.of_nat w →
  slice2_update f y0 y1 x0 x1 rhs a = Returns a' → has_shape h w a'.
Proof.
  intros Ha Hy0 Hy1 Hx0 Hx1. unfold slice2_update.
  pose proof (has_shape_slice2 h w y0 y1 x0 x1 a Ha Hy0 Hy1 Hx0 Hx1) as Hlhs.
  destruct (same_shape _ rhs) eqn:Hs; [|done]. intros [= <-].
  apply has_shape_set_slice2; try done.
  apply has_shape_zip_with; [done|].
  by apply (same_shape_has_shape _ _ _ _ Hs).
Qed.

Lemma slice2_update_raises {A B} (f : A → B → A) (y0 y1 x0 x1 : Z)
    (rhs : array2 B) (a : array2 A) (e : exn) :
  slice2_update f y0 y1 x0 x1 rhs a = Raises e → e = ValueError.
Proof. unfold slice2_update. destruct (same_shape _ _); congruence. Qed.

Lemma for_each_raises {A S} (I : S → Prop) (e : exn) (l : list A)
    (body : A → S → result S) (s : S) (bad : A) :
  bad ∈ l → I s →
  (∀ a s, a ∈ l → I s →
     (∃ s', body a s = Returns s' ∧ I s') ∨ body a s = Raises e) →
  (∀ s, I s → body bad s = Raises e) →
  for_each l body s = Raises e.
Proof.
  intros Hbad Hs Hbody Hraise. revert s Hs.
  induction l as [|a l IH]; intros s Hs; [by apply elem_of_nil in Hbad|].
  cbn [for_each].
  destruct (Hbody a s) as [(s' & Hs' & HI')|Hr]; [by left|done| |].
  - rewrite Hs'. cbn [mbind result_bind].
    apply elem_of_cons in Hbad as [->|Hbad].
    + rewrite Hraise in Hs' by done. done.
    + apply IH; [done| |done]. intros b t Hb. apply Hbody. by right.
  - by rewrite Hr.
Qed.

(** A turn of the loop returns with a height buffer of the same shape, or
    raises [ValueError]. *)
Lemma place_cell_outcome (v : Viewer) (h w : nat) (r c : Z) (a : Assembly) :
  0 ≤ r → r * 65 + 65 ≤ Z.of_nat h → 0 ≤ c → c * 65 + 65 ≤ Z.of_nat w →
  has_shape h w (asm_map a) →
  (∃ a', place_cell v (r, c) a = Returns a' ∧ has_shape h w (asm_map a'))
  ∨ place_cell v (r, c) a = Raises ValueError.
Proof.
  intros Hr0 Hr1 Hc0 Hc1 Ha. rewrite place_cell_eq. cbv zeta.
  change (Z.of_nat grid_size) with 65.
  destruct (sectors_data v !! _) as [data|]; [|left; by eexists].
  destruct (slice2_update _ _ _ _ _ _ (asm_map a)) as [map'|e] eqn:Hmap.
  2: { right. by rewrite (slice2_update_raises _ _ _ _ _ _ _ _ Hmap). }
  apply (slice2_update_keeps_shape _ h w) in Hmap; [|done|lia..].
  cbn [mbind result_bind].
  destruct (asm_texture a) as [t|]; [|left; by eexists].
  destruct (sectors_textures v !! _) as [texture|]; [|left; by eexists].
  destruct (slice2_update _ _ _ _ _ _ t) as [t'|e] eqn:Ht.
  - left. by eexists.
  - right. by rewrite (slice2_update_raises _ _ _ _ _ _ _ _ Ht).
Qed.

(** The cell of a sector without columns raises. *)
Lemma place_cell_no_columns (v : Viewer) (h w : nat) (r c : Z)
    (a : Assembly) :
  0 ≤ r → r * 65 + 65 ≤ Z.of_nat h → 0 ≤ c → c * 65 + 65 ≤ Z.of_nat w →
  sectors_data v !! heightmap_sector_index (settings v) r c
  = Some (replicate 65 []) →
  has_shape h w (asm_map a) →
  place_cell v (r, c) a = Raises ValueError.
Proof.
  intros Hr0 Hr1 Hc0 Hc1 Hdata Ha. rewrite place_cell_eq. cbv zeta.
  change (Z.of_nat grid_size) with 65. rewrite Hdata.
  unfold slice2_update.
  destruct (same_shape _ _) eqn:Hs; [exfalso|done].
  pose proof (has_shape_slice2 h w (r * 65) (r * 65 + 65) (c * 65)
                (c * 65 + 65) (asm_map a) Ha) as Hlhs.
  apply (same_shape_has_shape _ _ _ _ Hs) in Hlhs as [_ Hrows]; [|lia..].
  assert (placed_heights (settings v) (replicate 65 []) = replicate 65 [])
    as Hplaced.
  { unfold placed_heights, np_flipud. destruct (_ && _); [done|].
    apply reverse_replicate. }
  rewrite Hplaced in Hrows. apply Forall_cons in Hrows as [Hrow _].
  cbn in Hrow. lia.
Qed.

(** X19. A sector file cut before the second byte of its first height is not
    rejected by the decoder, and what the decoder returns for it stops the
    display: a request without seam blending whose grid holds the cell of
    that sector raises [ValueError]. *)
Theorem header_only_sector_stops_display (v : Viewer) (contents : list byte)
    (r c : Z) :
  standard_path (settings v) →
  Z.of_nat (length contents) < 710 →
  (r, c) ∈ grid_cells (sectors_x (settings v)) (sectors_y (settings v)) →
  sectors_data v !! heightmap_sector_index (settings v) r c
  = load_single_sector contents →
  update_display v = Raises ValueError.
Proof.
  intros Hpath Hshort Hcell Hdata.
  rewrite load_single_sector_short in Hdata by done.
  pose proof Hcell as [Hr Hc]%elem_of_grid_cells.
  rewrite update_display_standard; [|done| |lia..].
  2: { intros Hempty. by rewrite Hempty, lookup_empty in Hdata. }
  rewrite (for_each_raises
             (λ a, has_shape (mosaic_size (sectors_y (settings v)))
                     (mosaic_size (sectors_x (settings v))) (asm_map a))
             ValueError _ _ _ (r, c)); [done|done|..].
  - apply has_shape_replicate.
  - intros [r' c'] a [Hr' Hc']%elem_of_grid_cells Ha.
    apply place_cell_outcome; try done; unfold mosaic_size;
      change (Z.of_nat grid_size) with 65; lia.
  - intros a Ha.
    apply (place_cell_no_columns v (mosaic_size (sectors_y (settings v)))
             (mosaic_size (sectors_x (settings v)))); try done;
      unfold mosaic_size; change (Z.of_nat grid_size) with 65; lia.
Qed.

Lemma header_only_sector_stops_display_witness :
  update_display header_only_viewer = Raises ValueError.
Proof.
  apply (header_only_sector_stops_display header_only_viewer header_only 0 0).
  - reflexivity.
  - unfold header_only. rewrite length_replicate. lia.
  - apply elem_of_grid_cells. cbn. lia.
  - rewrite load_single_sector_short
      by (unfold header_only; rewrite length_replicate; lia).
    apply lookup_singleton_eq.
Defined.

Lemma loaded_heights_origin (files : list SectorFile) (n : Z)
    (d : array2 Qc) :
  loaded_sectors_data (load_sectors files) !! n = Some d →
  ∃ f, f ∈ files ∧ file_sector_num f = Some n
       ∧ load_single_sector (file_contents f) = Some d.
Proof.
  induction files as [|f files IH] using rev_ind.
  - unfold load_sectors. cbn. by rewrite lookup_empty.
  - rewrite load_sectors_snoc. unfold load_file.
    assert (loaded_sectors_data (load_sectors files) !! n = Some d →
            ∃ f0, f0 ∈ files ++ [f] ∧ file_sector_num f0 = Some n
              ∧ load_single_sector (file_contents f0) = Some d) as Hold.
    { intros Hd. destruct (IH Hd) as (f0 & Hin & Hrest).
      exists f0. split; [apply elem_of_app; by left|done]. }
    destruct (file_sector_num f) as [m|] eqn:Hnum; [|done].
    destruct (load_single_sector (file_contents f)) as [h|] eqn:Hload;
      [|done].
    cbn [loaded_sectors_data]. destruct (decide (m = n)) as [->|Hne].
    + rewrite lookup_insert_eq. intros [= <-]. exists f.
      split; [apply elem_of_app; right; by left|done].
    + by rewrite lookup_insert_ne by done.
Qed.

Lemma has_shape_spec_grid (contents : list byte) :
  has_shape grid_size grid_size (spec_grid contents).
Proof.
  unfold spec_grid. split; [by rewrite length_fmap, length_seq|].
  apply Forall_fmap, Forall_forall. intros y _. by cbn.
Qed.

Lemma pixel_spec_grid (contents : list byte) (y x : nat) :
  (y < 65)%nat → (x < 65)%nat →
  pixel (spec_grid contents) y x = Some (spec_cell contents y x).
Proof.
  intros Hy Hx. unfold pixel, spec_grid.
  rewrite list_lookup_fmap, lookup_seq_lt by done.
  cbn [fmap option_fmap option_map mbind option_bind].
  by rewrite list_lookup_fmap, lookup_seq_lt by done.
Qed.

Lemma pixel_flipud_spec_grid (contents : list byte) (y x : nat) :
  (y < 65)%nat → (x < 65)%nat →
  pixel (np_flipud (spec_grid contents)) y x
  = Some (spec_cell contents (64 - y) x).
Proof.
  intros Hy Hx. unfold pixel, np_flipud.
  pose proof (has_shape_spec_grid contents) as [Hlen _].
  unfold grid_size in Hlen.
  rewrite reverse_lookup by lia. rewrite Hlen.
  replace (65 - S y)%nat with (64 - y)%nat by lia.
  apply pixel_spec_grid; lia.
Qed.

(** A file of at least 710 bytes that the decoder accepts is decoded to the
    grid of its samples. *)
Lemma load_single_sector_accepted (contents : list byte) (d : array2 Qc) :
  710 ≤ Z.of_nat (length contents) →
  load_single_sector contents = Some d → d = spec_grid contents.
Proof.
  intros Hlen Hd.
  destruct (Z.ltb_spec (Z.of_nat (length contents)) (708 + 16898)) as [Hcut|].
  - rewrite load_single_sector_truncated in Hd by lia. done.
  - rewrite load_single_sector_full in Hd by done. congruence.
Qed.

(** X20. From the files to the picture.  When no file of the directory is
    cut inside its header or first height, the ordering is left to the
    textures and seam blending is off, the display of what the loader has
    collected returns, and each pixel [(y, x)] of the height buffer is
    zero, where no sector is loaded for its cell, or else the 16 bit
    sample, divided by 128, that the file of the sector of that cell holds
    for row [64 - y mod 65] and column [x mod 65]. *)
Theorem loaded_heights_displayed (files : list SectorFile) (v : Viewer) :
  sectors_data v = loaded_sectors_data (load_sectors files) →
  (∀ f, f ∈ files → 710 ≤ Z.of_nat (length (file_contents f))) →
  standard_path (settings v) →
  apply_pattern_to_heightmap (settings v) = false →
  0 ≤ sectors_x (settings v) → 0 ≤ sectors_y (settings v) →
  sectors_data v ≠ ∅ → well_shaped (sectors_textures v) →
  ∃ d, update_display v = Returns (Some d)
    ∧ ∀ y x, (y < mosaic_size (sectors_y (settings v)))%nat →
        (x < mosaic_size (sectors_x (settings v)))%nat →
        let index := (sectors_y (settings v) - 1 - cell_of y)
                     * sectors_x (settings v) + cell_of x in
        (sectors_data v !! index = None
         ∧ pixel (current_combined_map d) y x = Some 0%Qc)
        ∨ (∃ f, f ∈ files ∧ file_sector_num f = Some index
             ∧ load_single_sector (file_contents f) = sectors_data v !! index
             ∧ pixel (current_combined_map d) y x
               = Some (spec_cell (file_contents f)
                         (64 - within_cell y) (within_cell x))).
Proof.
  intros Hloaded Hfiles Hpath Happly Hx Hy Hne Htex.
  assert (∀ n d, sectors_data v !! n = Some d →
            ∃ f, f ∈ files ∧ file_sector_num f = Some n
              ∧ load_single_sector (file_contents f) = Some d
              ∧ d = spec_grid (file_contents f)) as Horigin.
  { intros n d Hd. rewrite Hloaded in Hd.
    destruct (loaded_heights_origin files n d Hd) as (f & Hin & Hnum & Hload).
    exists f. repeat split; try done.
    apply load_single_sector_accepted; [by apply Hfiles|done]. }
  assert (well_shaped (sectors_data v)) as Hdata.
  { intros n d Hd. destruct (Horigin n d Hd) as (f & _ & _ & _ & ->).
    apply has_shape_spec_grid. }
  rewrite update_display_standard by done.
  destruct (standard_loop v Hx Hy Hdata Htex) as (a & -> & [_ Hpix] & _).
  eexists. split; [reflexivity|].
  intros y x Hyy Hxx. cbn [finish_display current_combined_map].
  rewrite Hpix by done.
  rewrite decide_True by by apply pixel_in_grid.
  unfold mosaic_height, heightmap_sector_index, placed_heights.
  rewrite Happly. cbv zeta. cbn [andb].
  destruct (sectors_data v !! _) as [data|] eqn:Hd; [right|by left].
  destruct (Horigin _ _ Hd) as (f & Hin & Hnum & Hload & ->).
  exists f. repeat split; try done.
  rewrite pixel_flipud_spec_grid; [done|apply within_cell_lt..].
Qed.

Lemma loaded_heights_displayed_witness :
  ∃ d, update_display one_peak_viewer = Returns (Some d)
    ∧ ∀ y x, (y < mosaic_size 1)%nat → (x < mosaic_size 1)%nat →
        let index := (1 - 1 - cell_of y) * 1 + cell_of x in
        (sectors_data one_peak_viewer !! index = None
         ∧ pixel (current_combined_map d) y x = Some 0%Qc)
        ∨ (∃ f, f ∈ one_peak_directory ∧ file_sector_num f = Some index
             ∧ load_single_sector (file_contents f)
               = sectors_data one_peak_viewer !! index
             ∧ pixel (current_combined_map d) y x
               = Some (spec_cell (file_contents f)
                         (64 - within_cell y) (within_cell x))).
Proof.
  assert (Z.of_nat (length one_peak) = 708 + 16900) as Hlen.
  { unfold one_peak. rewrite !length_app, !length_replicate. cbn [length]. lia. }
  assert (loaded_sectors_data (load_sectors one_peak_directory)
          = {[ 0 := spec_grid one_peak ]}) as Hload.
  { unfold load_sectors, one_peak_directory. cbn [foldl]. unfold load_file.
    cbn [file_sector_num file_contents].
    rewrite load_single_sector_full by lia. reflexivity. }
  apply (loaded_heights_displayed one_peak_directory one_peak_viewer).
  - reflexivity.
  - intros f Hf. apply list_elem_of_singleton in Hf as ->.
    cbn [file_contents]. lia.
  - reflexivity.
  - reflexivity.
  - cbn. lia.
  - cbn. lia.
  - cbn [one_peak_viewer sectors_data]. rewrite Hload.
    apply insert_non_empty.
  - apply well_shaped_empty.
Defined.

(** ** The two viewers *)

Lemma for_each_agree {A S T} (R : S → T → Prop) (l : list A)
    (body : A → S → result S) (body' : A → T → result T) (s : S) (t : T) :
  R s t →
  (∀ a s t, R s t → outcomes_agree R (body a s) (body' a t)) →
  outcomes_agree R (for_each l body s) (for_each l body' t).
Proof.
  intros Hst Hbody. revert s t Hst.
  induction l as [|a l IH]; intros s t Hst; [done|]. cbn [for_each].
  pose proof (Hbody a s t Hst) as Ha. unfold outcomes_agree in Ha.
  destruct (body a s) as [s'|e], (body' a t) as [t'|e']; try done.
  cbn [mbind result_bind]. by apply IH.
Qed.

Lemma place_cell_first_viewer (v : Viewer) (cell : Z * Z) (a : Assembly)
    (st : array2 Qc * list Z * list Z) :
  apply_pattern_to_heightmap (settings v) = false →
  same_assembly a st →
  outcomes_agree same_assembly (place_cell v cell a)
    (place_cell1 (sectors_x (settings v)) (sectors_y (settings v))
       (sectors_data v) cell st).
Proof.
  intros Happly [Htex ->]. destruct cell as [r c].
  rewrite place_cell_eq. unfold place_cell1, heightmap_sector_index,
    placed_heights. rewrite Happly, Htex. cbv zeta. cbn [andb].
  destruct (sectors_data v !! _) as [data|]; [|by split].
  destruct (slice2_update _ _ _ _ _ _ _) as [map'|e]; [by split|done].
Qed.

(** X21. With the ordering left to the textures, no seam blending and no
    texture shown, the second viewer composes what the first viewer
    composes: the same height buffer, the same displayed and missing lists
    and the same status line, and it raises where the first raises. *)
Theorem second_viewer_extends_first (v : Viewer) :
  standard_path (settings v) →
  apply_pattern_to_heightmap (settings v) = false →
  textures_shown v = false →
  update_display1 (sectors_x (settings v)) (sectors_y (settings v))
    (sectors_data v)
  = result_map (option_map heights_view) (update_display v).
Proof.
  intros Hpath Happly Htex. unfold update_display, update_display1.
  destruct (bool_decide (sectors_data v = ∅)); [done|].
  destruct (np_zeros 0%Qc _ _) as [map0|]; [|done].
  cbn [mbind result_bind]. fold (textures_shown v). rewrite Htex.
  unfold standard_path in Hpath. rewrite Hpath.
  cbn [mbind result_bind mret result_ret].
  pose proof (for_each_agree same_assembly
                (grid_cells (sectors_x (settings v)) (sectors_y (settings v)))
                (place_cell v)
                (place_cell1 (sectors_x (settings v)) (sectors_y (settings v))
                   (sectors_data v))
                (mkAssembly map0 None [] []) (map0, [], [])) as Hrun.
  unfold outcomes_agree in Hrun.
  destruct (for_each _ (place_cell v) _) as [a|e],
    (for_each _ (place_cell1 _ _ _) _) as [[[m ds] ms]|e'];
    cbn [mbind result_bind result_map option_map].
  - destruct Hrun as [Ha [= -> -> ->]]; [done| |].
    { intros cell a0 st. by apply place_cell_first_viewer. }
    unfold heights_view. cbn [current_combined_map displayed_sectors
      missing_sectors info]. done.
  - exfalso. apply Hrun; [done|].
    intros cell a0 st. by apply place_cell_first_viewer.
  - exfalso. apply Hrun; [done|].
    intros cell a0 st. by apply place_cell_first_viewer.
  - f_equal. symmetry. apply Hrun; [done|].
    intros cell a0 st. by apply place_cell_first_viewer.
Qed.

Lemma second_viewer_extends_first_witness :
  update_display1 2 2 (uniform_collection 3 (Qc_of_Z 7))
  = result_map (option_map heights_view) (update_display (three_of_four false)).
Proof.
  apply (second_viewer_extends_first (three_of_four false)); reflexivity.
Defined.

(** ** The seam blending path of the compositor *)

Lemma seam_blending_returns_shaped {P Acc Out} (ops : pixel_ops P Acc Out)
    (is_texture : bool) (overlap : Z) (blend_mode current_pattern : string)
    (sectors_dict : gmap Z (array2 P)) (sx sy : Z) :
  1 ≤ overlap ≤ 65 → 0 ≤ sx → 0 ≤ sy → well_shaped sectors_dict →
  ∃ out,
    apply_seam_blending ops is_texture overlap blend_mode current_pattern
      sectors_dict sx sy = Returns (Some out)
    ∧ has_shape (Z.to_nat (sy * (65 - overlap) + overlap))
        (Z.to_nat (sx * (65 - overlap) + overlap)) out.
Proof.
  intros Ho Hsx Hsy Hdict. unfold apply_seam_blending.
  destruct (Z.ltb_spec overlap 1); [lia|].
  destruct (seam_accumulate_returns ops is_texture overlap blend_mode
              current_pattern sectors_dict sx sy)
    as ([combined weights] & -> & Hc & Hw); [done..|].
  cbn [fst snd] in Hc, Hw. eexists. split; [done|].
  apply has_shape_zip_with; [done|]. by apply has_shape_fmap.
Qed.

Lemma well_shaped_flipud {A} (sectors_dict : gmap Z (array2 A)) :
  well_shaped sectors_dict → well_shaped (np_flipud <$> sectors_dict).
Proof.
  intros Hd k d. rewrite lookup_fmap.
  destruct (sectors_dict !! k) as [d0|] eqn:Hk; [|done].
  intros [= <-]. apply has_shape_reverse. by apply (Hd k).
Qed.

(** X22. With seam blending on, an overlap between 1 and 65 and sectors of
    65 x 65 samples, [update_display] returns a height buffer of
    [sectors_y * (65 - overlap) + overlap] rows of
    [sectors_x * (65 - overlap) + overlap] samples, and its report never
    names a missing sector: it lists every sector of the collection as
    displayed, whether the grid has a cell for it or not. *)
Theorem seam_path_display (v : Viewer) :
  enable_seam_blending (settings v) = true →
  1 ≤ seam_overlap_pixels (settings v) ≤ 65 →
  0 ≤ sectors_x (settings v) → 0 ≤ sectors_y (settings v) →
  sectors_data v ≠ ∅ →
  well_shaped (sectors_data v) → well_shaped (sectors_textures v) →
  ∃ d, update_display v = Returns (Some d)
       ∧ has_shape
           (Z.to_nat (sectors_y (settings v)
                      * (65 - seam_overlap_pixels (settings v))
                      + seam_overlap_pixels (settings v)))
           (Z.to_nat (sectors_x (settings v)
                      * (65 - seam_overlap_pixels (settings v))
                      + seam_overlap_pixels (settings v)))
           (current_combined_map d)
       ∧ displayed_sectors d = (map_to_list (sectors_data v)).*1
       ∧ missing_sectors d = []
       ∧ reported_missing d = 0%nat.
Proof.
  intros Hseam Ho Hx Hy Hne Hdata Htex. unfold update_display.
  rewrite bool_decide_eq_false_2 by done.
  rewrite !np_zeros_returns by (change (Z.of_nat grid_size) with 65; lia).
  cbn [mbind result_bind]. rewrite Hseam.
  destruct (Z.ltb_spec 0 (seam_overlap_pixels (settings v))); [|lia].
  cbn [andb].
  assert (∃ m,
            (if apply_pattern_to_heightmap (settings v)
             then apply_seam_blending height_ops false
                    (seam_overlap_pixels (settings v))
                    (seam_blend_mode (settings v))
                    (sector_order_pattern (settings v)) (sectors_data v)
                    (sectors_x (settings v)) (sectors_y (settings v))
             else apply_seam_blending height_ops false
                    (seam_overlap_pixels (settings v))
                    (seam_blend_mode (settings v))
                    (sector_order_pattern (settings v))
                    (np_flipud <$> sectors_data v)
                    (sectors_x (settings v)) (sectors_y (settings v)))
            = Returns (Some m)
            ∧ has_shape
                (Z.to_nat (sectors_y (settings v)
                           * (65 - seam_overlap_pixels (settings v))
                           + seam_overlap_pixels (settings v)))
                (Z.to_nat (sectors_x (settings v)
                           * (65 - seam_overlap_pixels (settings v))
                           + seam_overlap_pixels (settings v))) m)
    as (m & Hm & Hshape).
  { destruct (apply_pattern_to_heightmap (settings v));
      apply seam_blending_returns_shaped; try done.
    by apply well_shaped_flipud. }
  assert (∀ t0 : option (array2 rgb), ∃ t,
            match t0 with
            | Some _ =>
                if bool_decide (sectors_textures v = ∅) then Returns t0
                else apply_seam_blending texture_ops true
                       (seam_overlap_pixels (settings v))
                       (seam_blend_mode (settings v))
                       (sector_order_pattern (settings v))
                       (sectors_textures v)
                       (sectors_x (settings v)) (sectors_y (settings v))
            | None => Returns None
            end = Returns t) as Htexture.
  { intros [t0|]; [|by eexists].
    destruct (bool_decide _); [by eexists|].
    destruct (seam_blending_returns_shaped texture_ops true
                (seam_overlap_pixels (settings v))
                (seam_blend_mode (settings v))
                (sector_order_pattern (settings v)) (sectors_textures v)
                (sectors_x (settings v)) (sectors_y (settings v)))
      as (t & -> & _); try done. by eexists. }
  destruct (enable_textures (settings v) && _);
    cbn [mbind result_bind mret result_ret];
    unfold blend_display; cbv zeta; rewrite Hm; cbn [mbind result_bind].
  - match goal with
    | |- context [if bool_decide _ then Returns ?t0 else _] =>
        destruct (Htexture t0) as (t & Ht)
    end.
    cbv beta iota in Ht. rewrite Ht.
    cbn [mbind result_bind mret result_ret].
    eexists. split; [reflexivity|].
    cbn [current_combined_map displayed_sectors missing_sectors asm_map
         asm_displayed asm_missing]. by split; [|split; [|split]].
  - cbn [mbind result_bind mret result_ret].
    eexists. split; [reflexivity|].
    cbn [current_combined_map displayed_sectors missing_sectors asm_map
         asm_displayed asm_missing]. by split; [|split; [|split]].
Qed.

Lemma seam_path_display_witness :
  ∃ d, update_display (three_of_four true) = Returns (Some d)
       ∧ has_shape (Z.to_nat (2 * (65 - 2) + 2)) (Z.to_nat (2 * (65 - 2) + 2))
           (current_combined_map d)
       ∧ displayed_sectors d
         = (map_to_list (uniform_collection 3 (Qc_of_Z 7))).*1
       ∧ missing_sectors d = []
       ∧ reported_missing d = 0%nat.
Proof.
  apply (seam_path_display (three_of_four true)).
  - reflexivity.
  - cbn. lia.
  - cbn. lia.
  - cbn. lia.
  - apply uniform_collection_nonempty.
  - apply (all_uniform_well_shaped (Qc_of_Z 7)), uniform_collection_uniform.
  - apply well_shaped_empty.
Defined.
